(** * Verification model of prompt-explorer's extraction pipeline

    Shallow embedding of:
    - [src/src/lib/secretsScan.ts]            (module [Secrets])
    - [src/src/lib/promptKeywordScan.ts]      (module [Keywords])
    - the Python visitor embedded in [src/src/lib/extract/pythonExtractor.ts]
                                                (module [PyExtract])
    - [listAllFiles], [buildFileTree] and [POST] of
      [src/src/app/api/scan/route.ts]           (modules [Walk], [Scan])
    - [analyzePromptContext] ([src/unnamed/part_004]) (module [Narrative])
    - [getClientIp] and the start of [POST], [requireJwtFromRequest]
      ([src/src/lib/auth.ts]), [checkRateLimit] and the clone directory
      name of [cloneOrPullRepo] ([src/unnamed/part_003]) (module [Api])

    JavaScript strings are modelled as Rocq [string]s whose characters are
    the code points 0..255 (the Latin-1 part of UTF-16); regular
    expressions are run by a backtracking matcher written after the
    ECMAScript pattern semantics (module [Regex]). *)

From Stdlib Require Import String Ascii List Arith Lia Bool ZArith QArith.
From Stdlib Require Import DecimalString DecimalNat.
Import ListNotations.

Local Open Scope string_scope.
Local Open Scope list_scope.
Local Open Scope nat_scope.
#[local] Set Warnings "-register-all".

(** ** Characters and strings *)

Module Str.

Definition code (c : ascii) : nat := nat_of_ascii c.

(** JavaScript [\s] restricted to code points 0..255 (includes NBSP). *)
Definition is_space (c : ascii) : bool :=
  let n := code c in
  ((9 <=? n) && (n <=? 13)) || (n =? 32) || (n =? 160).

Definition is_digit (c : ascii) : bool := (48 <=? code c) && (code c <=? 57).
Definition is_upper (c : ascii) : bool := (65 <=? code c) && (code c <=? 90).
Definition is_lower (c : ascii) : bool := (97 <=? code c) && (code c <=? 122).
Definition is_alnum (c : ascii) : bool := is_digit c || is_upper c || is_lower c.

(** [\w] (no [u] flag): [A-Za-z0-9_]. *)
Definition is_word (c : ascii) : bool := is_alnum c || (code c =? 95).

(** Line terminators excluded by [.] *)
Definition is_line_term (c : ascii) : bool := (code c =? 10) || (code c =? 13).

(** [String.prototype.toLowerCase] on code points 0..255. *)
Definition to_lower (c : ascii) : ascii :=
  let n := code c in
  if is_upper c || ((192 <=? n) && (n <=? 222) && negb (n =? 215))
  then ascii_of_nat (n + 32) else c.

(** The [Canonicalize] of case-insensitive, non-unicode patterns
    ([toUpperCase], keeping the character when the upper case form is
    outside 0..255 or is several characters). *)
Definition canon (c : ascii) : ascii :=
  let n := code c in
  if is_lower c || ((224 <=? n) && (n <=? 254) && negb (n =? 247))
  then ascii_of_nat (n - 32) else c.

Definition lower_string (s : string) : string :=
  string_of_list_ascii (map to_lower (list_ascii_of_string s)).

(** [s.includes(t)] *)
Fixpoint prefixb (t s : list ascii) : bool :=
  match t, s with
  | [], _ => true
  | a :: t', b :: s' => Ascii.eqb a b && prefixb t' s'
  | _ :: _, [] => false
  end.

Fixpoint includes_l (s t : list ascii) : bool :=
  prefixb t s || match s with [] => false | _ :: s' => includes_l s' t end.

Definition includes (s t : string) : bool :=
  includes_l (list_ascii_of_string s) (list_ascii_of_string t).

(** [s.slice(a, b)] for [0 <= a <= b]. *)
Definition slice_l (l : list ascii) (a b : nat) : list ascii :=
  firstn (b - a) (skipn a l).

Definition take (n : nat) (s : string) : string :=
  string_of_list_ascii (firstn n (list_ascii_of_string s)).

(** [text.split(/\r?\n/)]: split at every [\n], dropping one [\r] right
    before it. *)
Fixpoint split_nl (l : list ascii) (cur : list ascii) : list (list ascii) :=
  match l with
  | [] => [rev cur]
  | c :: l' =>
      if code c =? 10 then
        (match cur with
         | r :: cur' => if code r =? 13 then rev cur' else rev cur
         | [] => []
         end) :: split_nl l' []
      else split_nl l' (c :: cur)
  end.

Definition split_lines (text : string) : list string :=
  map string_of_list_ascii (split_nl (list_ascii_of_string text) []).

(** Decimal rendering of a line number in a template literal. *)
Definition show_nat (n : nat) : string := NilEmpty.string_of_uint (Nat.to_uint n).

End Str.

(** ** A backtracking matcher with ECMAScript semantics *)

Module Regex.
Import Str.

Inductive re :=
| Chr (c : ascii)
| Cls (p : ascii -> bool)
| Dot
| Seq (r1 r2 : re)
| Alt (r1 r2 : re)
| Star (greedy : bool) (r : re)
| Group (n : nat) (r : re)
| Backref (n : nat)
| WordB
| Eps.

(** A regular expression literal: pattern, number of groups, [i] flag. *)
Record regexp := RE { source : re; ngroups : nat; icase : bool }.

Record mstate := MS { pos : nat; caps : list (option (nat * nat)) }.

Fixpoint set_nth {A} (n : nat) (x : A) (l : list A) : list A :=
  match l, n with
  | [], _ => []
  | _ :: t, 0 => x :: t
  | h :: t, S n' => h :: set_nth n' x t
  end.

Section Matcher.
Variable inp : list ascii.
Variable ic : bool.

Definition char_eq (c d : ascii) : bool :=
  if ic then Ascii.eqb (canon c) (canon d) else Ascii.eqb c d.

Definition cls_match (p : ascii -> bool) (d : ascii) : bool :=
  if ic then p d || p (to_lower d) || p (canon d) else p d.

Definition word_at (i : nat) : bool :=
  match nth_error inp i with Some c => is_word c | None => false end.

Definition is_boundary (i : nat) : bool :=
  let a := match i with 0 => false | S j => word_at j end in
  xorb a (word_at i).

Fixpoint backref_ok (a i len : nat) : bool :=
  match len with
  | 0 => true
  | S len' =>
      match nth_error inp a, nth_error inp i with
      | Some c, Some d => char_eq c d && backref_ok (S a) (S i) len'
      | _, _ => false
      end
  end.

(** RepeatMatcher with min = 0, max = infinity, over the matcher [mr] of
    the atom: an iteration that consumes nothing fails.  [fuel] bounds the
    number of iterations by the characters left. *)
Fixpoint star_loop (mr : mstate -> (mstate -> option mstate) -> option mstate)
    (g : bool) (k : mstate -> option mstate) (fuel : nat) (s : mstate)
  : option mstate :=
  match fuel with
  | 0 => None
  | S fuel' =>
      let iter := mr s (fun s' => if pos s' =? pos s then None
                                  else star_loop mr g k fuel' s') in
      if g then
        match iter with Some x => Some x | None => k s end
      else
        match k s with Some x => Some x | None => iter end
  end.

Fixpoint m (r : re) (s : mstate) (k : mstate -> option mstate) {struct r}
  : option mstate :=
  match r with
  | Chr c =>
      match nth_error inp (pos s) with
      | Some d => if char_eq c d then k (MS (S (pos s)) (caps s)) else None
      | None => None
      end
  | Cls p =>
      match nth_error inp (pos s) with
      | Some d => if cls_match p d then k (MS (S (pos s)) (caps s)) else None
      | None => None
      end
  | Dot =>
      match nth_error inp (pos s) with
      | Some d => if is_line_term d then None else k (MS (S (pos s)) (caps s))
      | None => None
      end
  | Seq r1 r2 => m r1 s (fun s1 => m r2 s1 k)
  | Alt r1 r2 =>
      match m r1 s k with
      | Some x => Some x
      | None => m r2 s k
      end
  | Star g r1 => star_loop (m r1) g k (S (length inp - pos s)) s
  | Group n r1 =>
      m r1 s (fun s1 =>
        k (MS (pos s1) (set_nth n (Some (pos s, pos s1)) (caps s1))))
  | Backref n =>
      match nth n (caps s) None with
      | None => k s
      | Some (a, b) =>
          if backref_ok a (pos s) (b - a)
          then k (MS (pos s + (b - a)) (caps s)) else None
      end
  | WordB => if is_boundary (pos s) then k s else None
  | Eps => k s
  end.

End Matcher.

(** [RegExpBuiltinExec] from [lastIndex]: the leftmost start position
    [>= lastIndex] at which the pattern matches. *)
Fixpoint search (inp : list ascii) (r : regexp) (start fuel : nat)
  : option (nat * mstate) :=
  match fuel with
  | 0 => None
  | S f =>
      match m inp (icase r) (source r) (MS start (repeat None (S (ngroups r))))
              (fun s => Some s) with
      | Some s => Some (start, s)
      | None => search inp r (S start) f
      end
  end.

Definition exec (inp : list ascii) (r : regexp) (lastIndex : nat)
  : option (nat * mstate) :=
  if length inp <? lastIndex then None
  else search inp r lastIndex (S (length inp - lastIndex)).

(** [regex.test(s)] for a non-global regex. *)
Definition test (r : regexp) (s : string) : bool :=
  match exec (list_ascii_of_string s) r 0 with Some _ => true | None => false end.

(** [lastIndex = 0; while ((m = regex.exec(s))) ...] for a global regex:
    the successive matches, each as (index, final state).  On an empty
    match the JavaScript loop would not advance; none of the patterns of
    this program can match the empty string ([SecretsFacts.no_empty_match],
    [KeywordsFacts.block_no_empty_match]) so that branch is never taken. *)
Fixpoint exec_loop (inp : list ascii) (r : regexp) (lastIndex fuel : nat)
  : list (nat * mstate) :=
  match fuel with
  | 0 => []
  | S f =>
      match exec inp r lastIndex with
      | None => []
      | Some (i, s) =>
          if pos s =? i then [(i, s)]
          else (i, s) :: exec_loop inp r (pos s) f
      end
  end.

Definition exec_all (inp : list ascii) (r : regexp) : list (nat * mstate) :=
  exec_loop inp r 0 (S (length inp)).

(** [m[0]] and [m[n]] of a match. *)
Definition group0 (inp : list ascii) (x : nat * mstate) : string :=
  string_of_list_ascii (slice_l inp (fst x) (pos (snd x))).

Definition group (inp : list ascii) (x : nat * mstate) (n : nat) : option string :=
  match nth n (caps (snd x)) None with
  | Some (a, b) => Some (string_of_list_ascii (slice_l inp a b))
  | None => None
  end.

(** Pattern-building helpers. *)
Fixpoint lit_l (l : list ascii) : re :=
  match l with
  | [] => Eps
  | [c] => Chr c
  | c :: l' => Seq (Chr c) (lit_l l')
  end.
Definition lit (s : string) : re := lit_l (list_ascii_of_string s).
Definition plus (r : re) : re := Seq r (Star true r).
Definition star (r : re) : re := Star true r.
Definition lazy (r : re) : re := Star false r.
Definition opt (r : re) : re := Alt r Eps.
Fixpoint rep (n : nat) (r : re) : re :=
  match n with 0 => Eps | 1 => r | S n' => Seq r (rep n' r) end.
Fixpoint seqs (l : list re) : re :=
  match l with [] => Eps | [r] => r | r :: l' => Seq r (seqs l') end.
Fixpoint alts (l : list re) : re :=
  match l with [] => Eps | [r] => r | r :: l' => Alt r (alts l') end.
Definition chr_in (s : string) (c : ascii) : bool :=
  existsb (Ascii.eqb c) (list_ascii_of_string s).

End Regex.

(** ** [secretsScan.ts] *)

Module Secrets.
Import Str Regex.

Record SecretFinding := { match_ : string; filePath : string; line : nat }.

(** [/sk-[A-Za-z0-9]{20,}/g] *)
Definition openai_key : regexp :=
  RE (seqs [lit "sk-"; rep 20 (Cls is_alnum); star (Cls is_alnum)]) 0 false.

(** [/Bearer\s+[A-Za-z0-9\-_\.]+/g] *)
Definition bearer_token : regexp :=
  RE (seqs [lit "Bearer"; plus (Cls is_space);
            plus (Cls (fun c => is_alnum c || chr_in "-_." c))]) 0 false.

(** [/https?:\/\/[\w.-]+\.[\w.-]+\/.+\/(?:token|key|secret)[^\s<dq>']*/gi],
    where <dq> stands for the double quote character (code 34). *)
Definition url_private : regexp :=
  let wdd := Cls (fun c => is_word c || chr_in ".-" c) in
  RE (seqs [lit "http"; opt (Chr "s"); lit "://"; plus wdd; Chr "."; plus wdd;
            Chr "/"; plus Dot; Chr "/";
            alts [lit "token"; lit "key"; lit "secret"];
            star (Cls (fun c => negb (is_space c || (code c =? 34) || (code c =? 39))))]) 0 true.

Definition patterns : list (string * regexp) :=
  [("openai_key", openai_key); ("bearer_token", bearer_token);
   ("url_private", url_private)].

(** The body of [for (const { regex } of patterns)] for one line. *)
Definition scan_line (filePath : string) (i : nat) (lineText : string)
  : list SecretFinding :=
  let inp := list_ascii_of_string lineText in
  flat_map (fun '(_, regex) =>
      map (fun x => {| match_ := group0 inp x; filePath := filePath; line := i + 1 |})
          (exec_all inp regex))
    patterns.

Fixpoint scan_lines (filePath : string) (i : nat) (lines : list string)
  : list SecretFinding :=
  match lines with
  | [] => []
  | l :: ls => scan_line filePath i l ++ scan_lines filePath (S i) ls
  end.

Definition scanTextForSecrets (text filePath : string) : list SecretFinding :=
  scan_lines filePath 0 (split_lines text).

End Secrets.

(** ** [promptKeywordScan.ts] *)

Module Keywords.
Import Str Regex.

Record PromptKeywordHit :=
  { filePath : string; line : nat; matchLabel : string; snippet : string }.

(** [value.replace(/\s+/g, " ").trim()] *)
Fixpoint collapse_ws (l : list ascii) (in_ws : bool) : list ascii :=
  match l with
  | [] => []
  | c :: l' =>
      if is_space c then
        (if in_ws then collapse_ws l' true else " "%char :: collapse_ws l' true)
      else c :: collapse_ws l' false
  end.

Fixpoint drop_ws (l : list ascii) : list ascii :=
  match l with
  | c :: l' => if is_space c then drop_ws l' else l
  | [] => []
  end.

Definition trim_l (l : list ascii) : list ascii := rev (drop_ws (rev (drop_ws l))).

Definition normalizeWhitespace (value : string) : string :=
  string_of_list_ascii (trim_l (collapse_ws (list_ascii_of_string value) false)).

Definition sp := Cls is_space.
Definition anyc := Cls (fun _ => true).                       (* [\s\S] *)
Definition quote := Cls (fun c => (code c =? 34) || (code c =? 39)). (* [<dq>'], <dq> the double quote *)
Definition bword (s : string) : re := seqs [WordB; lit s; WordB].  (* \bs\b *)
Definition ire (r : re) : regexp := RE r 1 true.                (* /r/i *)

Definition keywordMatchers : list (string * (string -> bool)) :=
  [ ("role_system",
      fun l => test (ire (bword "role")) l && test (ire (bword "system")) l);
    ("system_prompt_identifier",
      fun l => test (ire (seqs [WordB; lit "system"; opt (Cls (chr_in "_-"));
                                lit "prompt"; WordB])) l);
    ("system_message_identifier",
      fun l => test (ire (Alt (seqs [WordB; lit "system"; star sp; lit "message"; WordB])
                              (bword "systemMessage"))) l);
    ("messages_role_system_inline",
      fun l => test (ire (seqs [WordB; lit "message"; opt (Chr "s"); WordB])) l
               && test (ire (bword "role")) l && test (ire (bword "system")) l);
    ("system_directive_you_are",
      fun l => test (ire (bword "you are")) l
               && test (ire (seqs [WordB; Group 1 (Alt (lit "system") (lit "assistant"));
                                   WordB])) l);
    ("generic_prompt_with_system",
      fun l => test (ire (bword "prompt")) l && test (ire (bword "system")) l);
    ("common_identifier_variants",
      fun l => test (ire (Group 1 (alts [lit "initialSystemPrompt"; lit "baseSystemPrompt";
                                        lit "systemInstructions"; lit "systemSpec"]))) l) ].

Record blockPattern := BP { label : string; regex : regexp; groupIndex : nat }.

Definition blockPatterns : list blockPattern :=
  [ (* /\bsystem\s*:\s*`([\s\S]*?)`/g *)
    BP "js_ts_system_template_literal"
       (RE (seqs [WordB; lit "system"; star sp; Chr ":"; star sp; Chr "`";
                  Group 1 (lazy anyc); Chr "`"]) 1 false) 1;
    (* /role\s*:\s*[<dq>']system[<dq>'][\s\S]*?content\s*:\s*`([\s\S]*?)`/gi *)
    BP "js_ts_role_system_then_content_template"
       (RE (seqs [lit "role"; star sp; Chr ":"; star sp; quote; lit "system"; quote;
                  lazy anyc; lit "content"; star sp; Chr ":"; star sp; Chr "`";
                  Group 1 (lazy anyc); Chr "`"]) 1 true) 1;
    (* /content\s*:\s*`([\s\S]*?)`[\s\S]*?role\s*:\s*[<dq>']system[<dq>']/gi *)
    BP "js_ts_content_template_then_role_system"
       (RE (seqs [lit "content"; star sp; Chr ":"; star sp; Chr "`";
                  Group 1 (lazy anyc); Chr "`"; lazy anyc;
                  lit "role"; star sp; Chr ":"; star sp; quote; lit "system"; quote]) 1 true) 1;
    (* /\bsystem\s*[:=]\s*([<dq>']{3})([\s\S]*?)\1/g *)
    BP "py_system_triple_quoted"
       (RE (seqs [WordB; lit "system"; star sp; Cls (chr_in ":="); star sp;
                  Group 1 (rep 3 quote); Group 2 (lazy anyc); Backref 1]) 2 false) 2;
    (* /role\s*=\s*[<dq>']system[<dq>'][\s\S]*?content\s*=\s*([<dq>']{3})([\s\S]*?)\1/gi *)
    BP "py_role_system_triple_content"
       (RE (seqs [lit "role"; star sp; Chr "="; star sp; quote; lit "system"; quote;
                  lazy anyc; lit "content"; star sp; Chr "="; star sp;
                  Group 1 (rep 3 quote); Group 2 (lazy anyc); Backref 1]) 2 true) 2;
    (* /content\s*=\s*([<dq>']{3})([\s\S]*?)\1[\s\S]*?role\s*=\s*[<dq>']system[<dq>']/gi *)
    BP "py_content_triple_then_role_system"
       (RE (seqs [lit "content"; star sp; Chr "="; star sp;
                  Group 1 (rep 3 quote); Group 2 (lazy anyc); Backref 1; lazy anyc;
                  lit "role"; star sp; Chr "="; star sp; quote; lit "system"; quote]) 2 true) 2 ].

(** [lineNumberAtIndex] *)
Definition lineNumberAtIndex (text : list ascii) (idx : nat) : nat :=
  if idx <=? 0 then 1
  else 1 + count_occ ascii_dec (firstn idx text) (ascii_of_nat 10).

(** [`${label}:${line}:${snippet.slice(0, 50)}`] *)
Definition key (label : string) (line : nat) (snippet : string) : string :=
  label ++ ":" ++ show_nat line ++ ":" ++ take 50 snippet.

(** [seen.has(k)] *)
Definition has (seen : list string) (k : string) : bool := existsb (String.eqb k) seen.

(** The [while ((m = regex.exec(text)))] loop of one block pattern. *)
Fixpoint block_loop (filePath : string) (text : list ascii) (bp : blockPattern)
    (ms : list (nat * mstate)) (seen : list string) (hits : list PromptKeywordHit)
  : list string * list PromptKeywordHit :=
  match ms with
  | [] => (seen, hits)
  | x :: ms' =>
      let content := match group text x (groupIndex bp) with Some c => c | None => "" end in
      let line := lineNumberAtIndex text (fst x) in
      let k := key (label bp) line content in
      if has seen k then block_loop filePath text bp ms' seen hits
      else block_loop filePath text bp ms' (k :: seen)
             (hits ++ [{| filePath := filePath; line := line;
                          matchLabel := label bp; snippet := content |}])
  end.

Fixpoint block_phase (filePath : string) (text : list ascii) (bps : list blockPattern)
    (seen : list string) (hits : list PromptKeywordHit)
  : list string * list PromptKeywordHit :=
  match bps with
  | [] => (seen, hits)
  | bp :: bps' =>
      let '(seen', hits') :=
        block_loop filePath text bp (exec_all text (regex bp)) seen hits in
      block_phase filePath text bps' seen' hits'
  end.

(** [" \n "] *)
Definition join_sep : string := String " " (String (ascii_of_nat 10) " ").

(** The snippet of a line-heuristic hit on line [i]. *)
Definition line_snippet (lines : list string) (i : nat) : string :=
  let contextPrev := if 0 <? i then nth (i - 1) lines "" else "" in
  let contextNext := if i + 1 <? length lines then nth (i + 1) lines "" else "" in
  normalizeWhitespace
    (String.concat join_sep
       (filter (fun s => negb (String.eqb s "")) [contextPrev; nth i lines ""; contextNext])).

(** [for (const { label, test } of keywordMatchers)] on line [i]: a seen
    key continues with the next matcher, an emitted hit breaks. *)
Fixpoint try_matchers (filePath : string) (lines : list string) (i : nat)
    (ms : list (string * (string -> bool))) (seen : list string)
    (hits : list PromptKeywordHit) : list string * list PromptKeywordHit :=
  match ms with
  | [] => (seen, hits)
  | (label, t) :: ms' =>
      if t (nth i lines "") then
        let snippet := line_snippet lines i in
        let k := key label (i + 1) snippet in
        if has seen k then try_matchers filePath lines i ms' seen hits
        else (k :: seen, hits ++ [{| filePath := filePath; line := i + 1;
                                    matchLabel := label; snippet := snippet |}])
      else try_matchers filePath lines i ms' seen hits
  end.

Fixpoint line_phase (filePath : string) (lines : list string) (idxs : list nat)
    (seen : list string) (hits : list PromptKeywordHit)
  : list string * list PromptKeywordHit :=
  match idxs with
  | [] => (seen, hits)
  | i :: idxs' =>
      let '(seen', hits') := try_matchers filePath lines i keywordMatchers seen hits in
      line_phase filePath lines idxs' seen' hits'
  end.

Definition scanTextForPromptKeywords (text filePath : string) : list PromptKeywordHit :=
  let t := list_ascii_of_string text in
  let lines := split_lines text in
  let '(seen, hits) := block_phase filePath t blockPatterns [] [] in
  snd (line_phase filePath lines (seq 0 (length lines)) seen hits).

End Keywords.

(** ** The Python visitor of [ensurePythonScript]'s script *)

Module PyExtract.

(** The fragment of Python's [ast] the visitor inspects.  [OtherExpr] and
    [OtherStmt] stand for every other node kind, with their child nodes in
    [generic_visit] order. *)
Inductive const := CStr (s : string) | COther.

Inductive expr :=
| Name (id : string)
| Attribute (value : expr) (attr : string)
| Constant (c : const)
| JoinedStr (values : list expr)
| FormattedValue (value : expr)
| Call (func : expr) (args : list expr) (keywords : list (option string * expr))
       (lineno : nat)
| Dict (keys : list (option expr)) (values : list expr)
| List (elts : list expr)
| OtherExpr (children : list expr).

Inductive stmt :=
| FunctionDef (name : string) (defaults : list expr) (body : list stmt)
              (decorator_list : list expr)
| AsyncFunctionDef (name : string) (defaults : list expr) (body : list stmt)
                   (decorator_list : list expr)
| ExprStmt (value : expr)
| OtherStmt (children : list expr) (body : list stmt).

Record PythonPrompt :=
  { role : string; text : string; filePath : string; line : nat;
    functionName : option string; callSignature : string }.

Definition LLM_CALLEE_NAMES : list (list string) :=
  [ ["openai"; "ChatCompletion"; "create"];
    ["openai"; "chat"; "completions"; "create"];
    ["client"; "chat"; "completions"; "create"];
    ["anthropic"; "messages"; "create"];
    ["llm"; "invoke"] ].

(** [_callee_segments] *)
Fixpoint callee_rev (node : expr) : list string :=
  match node with
  | Attribute v a => a :: callee_rev v
  | Name id => [id]
  | _ => []
  end.
Definition callee_segments (node : expr) : list string := rev (callee_rev node).

Fixpoint list_string_eqb (a b : list string) : bool :=
  match a, b with
  | [], [] => true
  | x :: a', y :: b' => String.eqb x y && list_string_eqb a' b'
  | _, _ => false
  end.

(** [any(callee[-len(s):] == s for s in LLM_CALLEE_NAMES if len(callee) >= len(s))] *)
Definition is_llm_call (callee : list string) : bool :=
  existsb (fun s => (length s <=? length callee)
                    && list_string_eqb (skipn (length callee - length s) callee) s)
          LLM_CALLEE_NAMES.

(** [_extract_string] *)
Definition extract_string (node : expr) : option string :=
  match node with
  | Constant (CStr s) => Some s
  | JoinedStr vs =>
      Some (String.concat "" (flat_map (fun v => match v with
                                                  | Constant (CStr s) => [s]
                                                  | _ => []
                                                  end) vs))
  | _ => None
  end.

(** [_infer_role_from_kw] *)
Definition infer_role_from_kw (kwarg_name : string) : string :=
  if existsb (String.eqb kwarg_name) ["system"; "system_prompt"] then "system"
  else if existsb (String.eqb kwarg_name) ["user"; "prompt"; "input"] then "user"
  else if existsb (String.eqb kwarg_name) ["tool"; "tools_prompt"] then "tool"
  else "unknown".

(** Python truthiness of [text] ([if text:]). *)
Definition truthy_str (t : option string) : bool :=
  match t with Some s => negb (String.eqb s "") | None => false end.

Section Call.
Variables (file_path : string) (fn : option string) (callee : list string) (lineno : nat).

Definition artifact (r t : string) : PythonPrompt :=
  {| role := r; text := t; filePath := file_path; line := lineno;
     functionName := fn; callSignature := String.concat "." callee |}.

(** The kwarg-based loop. *)
Definition kw_results (kws : list (option string * expr)) : list PythonPrompt :=
  flat_map (fun '(arg, v) =>
      let t := extract_string v in
      if truthy_str t then
        [artifact (match arg with Some a => infer_role_from_kw a | None => "unknown" end)
                  (match t with Some s => s | None => "" end)]
      else []) kws.

(** [k.s if isinstance(k, ast.Constant) else None] *)
Definition key_const (k : option expr) : option const :=
  match k with Some (Constant c) => Some c | _ => None end.

Definition is_key (s : string) (k : option const) : bool :=
  match k with Some (CStr s') => String.eqb s s' | _ => false end.

(** One dict argument (or list element) with role/content keys. *)
Definition dict_results (keys : list (option expr)) (values : list expr)
  : list PythonPrompt :=
  let ks := map key_const keys in
  if existsb (is_key "role") ks && existsb (is_key "content") ks then
    let '(r, t) :=
      fold_left (fun '(r, t) '(k, v) =>
          let r' := if is_key "role" k then
                      match v with Constant (CStr s) => Some s | _ => r end
                    else r in
          let t' := if is_key "content" k then extract_string v else t in
          (r', t'))
        (combine ks values) (None, None) in
    if truthy_str t then
      [artifact (match r with Some s => if String.eqb s "" then "unknown" else s
                              | None => "unknown" end)
                (match t with Some s => s | None => "" end)]
    else []
  else [].

Definition arg_results (args : list expr) : list PythonPrompt :=
  flat_map (fun a =>
      match a with
      | Dict ks vs => dict_results ks vs
      | List elts =>
          flat_map (fun e => match e with Dict ks vs => dict_results ks vs | _ => [] end) elts
      | _ => []
      end) args.

End Call.

(** [visit_Call]'s appended results. *)
Definition call_results (file_path : string) (fn : option string) (func : expr)
    (args : list expr) (kws : list (option string * expr)) (lineno : nat)
  : list PythonPrompt :=
  let callee := callee_segments func in
  if is_llm_call callee
  then kw_results file_path fn callee lineno kws ++ arg_results file_path fn callee lineno args
  else [].

(** The visitor: [results] accumulates in visiting order; [fn] is
    [self.func_stack[-1] if self.func_stack else None]. *)
Fixpoint visit_expr (fp : string) (fn : option string) (e : expr)
    (acc : list PythonPrompt) {struct e} : list PythonPrompt :=
  match e with
  | Name _ | Constant _ => acc
  | Attribute v _ | FormattedValue v => visit_expr fp fn v acc
  | JoinedStr es | List es | OtherExpr es =>
      (fix go (es : list expr) acc :=
         match es with [] => acc | x :: es' => go es' (visit_expr fp fn x acc) end) es acc
  | Call func args kws lineno =>
      let acc := acc ++ call_results fp fn func args kws lineno in
      let acc := visit_expr fp fn func acc in
      let acc := (fix go (es : list expr) acc :=
                    match es with [] => acc | x :: es' => go es' (visit_expr fp fn x acc) end)
                   args acc in
      (fix go (ks : list (option string * expr)) acc :=
         match ks with [] => acc | (_, x) :: ks' => go ks' (visit_expr fp fn x acc) end) kws acc
  | Dict ks vs =>
      let acc := (fix go (ks : list (option expr)) acc :=
                    match ks with
                    | [] => acc
                    | Some x :: ks' => go ks' (visit_expr fp fn x acc)
                    | None :: ks' => go ks' acc
                    end) ks acc in
      (fix go (es : list expr) acc :=
         match es with [] => acc | x :: es' => go es' (visit_expr fp fn x acc) end) vs acc
  end.

Definition visit_exprs (fp : string) (fn : option string) (es : list expr)
    (acc : list PythonPrompt) : list PythonPrompt :=
  fold_left (fun acc e => visit_expr fp fn e acc) es acc.

Fixpoint visit_stmt (fp : string) (fn : option string) (s : stmt)
    (acc : list PythonPrompt) {struct s} : list PythonPrompt :=
  let go := fix go (fn : option string) (ss : list stmt) acc :=
              match ss with [] => acc | x :: ss' => go fn ss' (visit_stmt fp fn x acc) end in
  match s with
  | FunctionDef name ds body decs | AsyncFunctionDef name ds body decs =>
      (* push name; generic_visit: args, body, decorator_list; pop *)
      visit_exprs fp (Some name) decs (go (Some name) body (visit_exprs fp (Some name) ds acc))
  | ExprStmt e => visit_expr fp fn e acc
  | OtherStmt es body => go fn body (visit_exprs fp fn es acc)
  end.

(** [extract_from_file] on a source that [ast.parse] turned into
    [Some module] ([None]: the parse raised, the file contributes []). *)
Definition extract_from_file (fp : string) (parsed : option (list stmt))
  : list PythonPrompt :=
  match parsed with
  | None => []
  | Some body => fold_left (fun acc s => visit_stmt fp None s acc) body []
  end.

End PyExtract.

(** ** Directory walkers of [route.ts] *)

Module Walk.
Import Str.

(** The filesystem below the target directory.  A directory records
    whether [readdir] succeeds on it; [Other] is any entry that is neither
    a regular file nor a directory for [Dirent] (symbolic links, sockets,
    ...).  Children are in [readdir] order. *)
Inductive node :=
| File (name : string) (size : nat) (content : string)
| Dir (name : string) (readable : bool) (children : list node)
| Other (name : string).

Definition name_of (n : node) : string :=
  match n with File nm _ _ | Dir nm _ _ | Other nm => nm end.

(** [join(dir, name)] for a [name] returned by [readdir]. *)
Definition join (dir name : string) : string :=
  match rev (list_ascii_of_string dir) with
  | c :: _ => if code c =? 47 then dir ++ name else dir ++ "/" ++ name
  | [] => name
  end.

Definition ignore : list string :=
  [".git"; "node_modules"; "__pycache__"; ".next"; ".venv"; "venv"; ".tmp-extractor"; "prisma"].

Definition ignored (nm : string) : bool := existsb (String.eqb nm) ignore.

(** [listAllFiles]: [None] when a [readdir] rejects (the promise
    rejects). *)
Fixpoint walk_files (maxFiles : nat) (dir : string) (n : node) (out : list string)
  {struct n} : option (list string) :=
  match n with
  | Dir _ readable children =>
      if negb readable then None else
      (fix loop (es : list node) (out : list string) : option (list string) :=
         match es with
         | [] => Some out
         | e :: es' =>
             if maxFiles <=? length out then Some out
             else if ignored (name_of e) then loop es' out
             else
               let p := join dir (name_of e) in
               match e with
               | Dir _ _ _ =>
                   match walk_files maxFiles p e out with
                   | Some out' => loop es' out'
                   | None => None
                   end
               | File _ _ _ => loop es' (out ++ [p])
               | Other _ => loop es' out
               end
         end) children out
  | _ => None
  end.

Definition listAllFiles (root : string) (tree : node) (maxFiles : nat)
  : option (list string) :=
  walk_files maxFiles root tree [].

Inductive ftype := TDir | TFile.

Inductive FileTreeNode :=
  FTN (name path : string) (type : ftype) (children : option (list FileTreeNode)).

(** [dirPath.split("/").pop() || dirPath] *)
Definition basename (p : string) : string :=
  let last := List.last (map string_of_list_ascii
                 (List.fold_right (fun c acc =>
                    if code c =? 47 then [] :: acc
                    else match acc with [] => [[c]] | a :: r => (c :: a) :: r end)
                   [[]] (list_ascii_of_string p))) "" in
  if String.eqb last "" then p else last.

Section Tree.
(** [String.prototype.localeCompare], as a comparison. *)
Variable localeCompare : string -> string -> comparison.

(** [entries.sort((a, b) => a.name.localeCompare(b.name))], stable. *)
Fixpoint insert_entry (x : node) (l : list node) : list node :=
  match l with
  | [] => [x]
  | y :: l' =>
      match localeCompare (name_of x) (name_of y) with
      | Lt => x :: l
      | _ => y :: insert_entry x l'
      end
  end.

Definition sort_entries (l : list node) : list node :=
  fold_left (fun acc x => insert_entry x acc) l [].

(** [walk(dirPath, depth)] of [buildFileTree], threading [nodeCount].
    [fuel] is [S maxDepth - depth]: once it is 0, [depth > maxDepth] and
    the code returns the empty node, as the [0] branch does. *)
Fixpoint walk_tree (maxDepth maxNodes : nat) (fuel : nat) (dirPath : string)
    (depth : nat) (n : node) (nodeCount : nat) {struct fuel}
  : FileTreeNode * nat :=
  let empty := FTN (basename dirPath) dirPath TDir (Some []) in
  match fuel with
  | 0 => (empty, nodeCount)
  | S fuel' =>
      if (maxDepth <? depth) || (maxNodes <=? nodeCount) then (empty, nodeCount)
      else
        match n with
        | Dir _ true children =>
            let '(kids, cnt) :=
              (fix loop (es : list node) (kids : list FileTreeNode) (cnt : nat) :=
                 match es with
                 | [] => (kids, cnt)
                 | e :: es' =>
                     if maxNodes <=? cnt then (kids, cnt)
                     else if ignored (name_of e) then loop es' kids cnt
                     else
                       let childPath := join dirPath (name_of e) in
                       if includes (lower_string childPath) "prisma" then loop es' kids cnt
                       else
                         match e with
                         | Dir _ _ _ =>
                             let '(child, cnt') :=
                               walk_tree maxDepth maxNodes fuel' childPath (S depth) e cnt in
                             loop es' (kids ++ [child]) (S cnt')
                         | File nm _ _ =>
                             loop es' (kids ++ [FTN nm childPath TFile None]) (S cnt)
                         | Other _ => loop es' kids cnt
                         end
                 end) (sort_entries children) [] nodeCount in
            (FTN (basename dirPath) dirPath TDir (Some kids), cnt)
        | _ => (empty, nodeCount)    (* readdir rejected: caught *)
        end
  end.

Definition buildFileTree (root : string) (tree : node) (maxDepth maxNodes : nat)
  : FileTreeNode :=
  fst (walk_tree maxDepth maxNodes (S maxDepth) root 1 tree 0).

End Tree.

(** Number of non-root nodes of a tree. *)
Fixpoint descendants (t : FileTreeNode) : nat :=
  match t with
  | FTN _ _ _ None => 0
  | FTN _ _ _ (Some kids) =>
      (fix go (l : list FileTreeNode) : nat :=
         match l with [] => 0 | k :: l' => S (descendants k) + go l' end) kids
  end.

End Walk.

(** ** Narrative synthesis: [analyzePromptContext] ([src/unnamed/part_004]) *)

Module Narrative.
Import Str.

(** Values produced by [JSON.parse]. *)
Inductive json :=
| JNull
| JBool (b : bool)
| JNum (q : Q)
| JStr (s : string)
| JArr (l : list json)
| JObj (fields : list (string * json)).

(** JavaScript truthiness of a possibly [undefined] value. *)
Definition truthy (v : option json) : bool :=
  match v with
  | None | Some JNull => false
  | Some (JBool b) => b
  | Some (JNum q) => negb (Qeq_bool q 0)
  | Some (JStr s) => negb (String.eqb s "")
  | Some (JArr _) | Some (JObj _) => true
  end.

(** Property read [v?.k]; a duplicated key keeps its last value. *)
Definition get (v : option json) (k : string) : option json :=
  match v with
  | Some (JObj fs) =>
      fold_left (fun acc '(k', x) => if String.eqb k k' then Some x else acc) fs None
  | _ => None
  end.

(** [v?.[0]] *)
Definition get0 (v : option json) : option json :=
  match v with
  | Some (JArr (x :: _)) => Some x
  | Some (JStr (String c _)) => Some (JStr (String c ""))
  | Some (JObj _) => get v "0"
  | _ => None
  end.

Definition is_array (v : option json) : bool :=
  match v with Some (JArr _) => true | _ => false end.

Record PromptModelAnalysis := { analysis_value : json }.

(** [flattenFileTree] *)
Fixpoint flatten_walk (maxDepth maxItems : nat) (n : Walk.FileTreeNode) (depth : nat)
    (out : list string) {struct n} : list string :=
  if maxItems <=? length out then out else
  let '(Walk.FTN _ path type children) := n in
  let out := out ++ [path] in
  if maxDepth <=? depth then out else
  match type, children with
  | Walk.TDir, Some cs =>
      (fix go (cs : list Walk.FileTreeNode) (out : list string) :=
         match cs with
         | [] => out
         | c :: cs' =>
             if maxItems <=? length out then out
             else go cs' (flatten_walk maxDepth maxItems c (S depth) out)
         end) cs out
  | _, _ => out
  end.

Definition flattenFileTree (root : option Walk.FileTreeNode) (maxDepth maxItems : nat)
  : list string :=
  match root with None => [] | Some r => flatten_walk maxDepth maxItems r 0 [] end.

(** The request sent to the text-generation service: the bounded context. *)
Record request :=
  { req_apiKey : string;
    req_hits : list (string * nat * string * string);
    req_python : list (string * string * string * nat * option string * option string);
    req_paths : list string }.

(** [p.functionName || null] *)
Definition or_null (s : option string) : option string :=
  match s with Some x => if String.eqb x "" then None else Some x | None => None end.

(** Result of an [async] function: a value, or a rejection. *)
Inductive js_result (A : Type) := Returned (a : A) | Threw.
Arguments Returned {A} a.
Arguments Threw {A}.

Fixpoint index_of_l (c : ascii) (l : list ascii) (i : nat) : option nat :=
  match l with
  | [] => None
  | d :: l' => if Ascii.eqb c d then Some i else index_of_l c l' (S i)
  end.

(** [s.indexOf(c)] and [s.lastIndexOf(c)], [None] for [-1]. *)
Definition indexOf (s : string) (c : ascii) : option nat :=
  index_of_l c (list_ascii_of_string s) 0.
Definition lastIndexOf (s : string) (c : ascii) : option nat :=
  let l := list_ascii_of_string s in
  match index_of_l c (rev l) 0 with
  | Some j => Some (length l - 1 - j)
  | None => None
  end.

Fixpoint arr_index (v : json) (l : list json) (i : nat) : option nat :=
  match l with
  | [] => None
  | x :: l' => match x, v with
               | JStr a, JStr b => if String.eqb a b then Some i else arr_index v l' (S i)
               | _, _ => arr_index v l' (S i)
               end
  end.

Section Analyze.
(** [JSON.parse]: [None] when it throws a [SyntaxError]. *)
Variable JSON_parse : string -> option json.
(** [String(array)], the conversion [JSON.parse] applies to an array. *)
Variable array_to_string : list json -> string.

(** The body of the [try] block once the reply [data] is in hand:
    [Threw] for a [TypeError] or a [SyntaxError]. *)
Definition parse_reply (data : json) : js_result (option json) :=
  let content := get (get (get0 (get (Some data) "choices")) "message") "content" in
  if negb (truthy content) then Returned None else
  let jsonText :=
    match content with
    | Some (JStr s) =>
        match indexOf s "{"%char, lastIndexOf s "}"%char with
        | Some firstBrace, Some lastBrace =>
            Some (string_of_list_ascii
                    (slice_l (list_ascii_of_string s) firstBrace (lastBrace + 1)))
        | _, _ => Some s
        end
    | Some (JArr l) =>
        (* Array.prototype.indexOf / lastIndexOf / slice, then String() *)
        match arr_index (JStr "{") l 0, arr_index (JStr "}") (rev l) 0 with
        | Some a, Some j =>
            Some (array_to_string (firstn (length l - 1 - j + 1 - a) (skipn a l)))
        | _, _ => Some (array_to_string l)
        end
    | _ => None        (* content.indexOf is not a function *)
    end in
  match jsonText with
  | None => Threw
  | Some t =>
      match JSON_parse t with
      | None => Threw
      | Some parsed =>
          if negb (truthy (get (Some parsed) "summary")) || negb (is_array (get (Some parsed) "files"))
          then Returned None
          else Returned (Some parsed)
      end
  end.

(** [analyzePromptContext]: the requests it sends, and its outcome.
    [server req] is the parsed reply body ([None]: [fetch] or
    [res.json()] rejects). *)
Definition analyzePromptContext (apiKey : option string) (server : request -> option json)
    (hits : list Keywords.PromptKeywordHit) (python : list PyExtract.PythonPrompt)
    (fileTree : option Walk.FileTreeNode)
  : list request * js_result (option json) :=
  match apiKey with
  | None => ([], Returned None)
  | Some key =>
      if String.eqb key "" then ([], Returned None) else
      let hs := map (fun h => (Keywords.filePath h, Keywords.line h, Keywords.matchLabel h,
                              take 400 (Keywords.snippet h))) (firstn 200 hits) in
      let py := map (fun p => (PyExtract.role p, take 500 (PyExtract.text p),
                               PyExtract.filePath p, PyExtract.line p,
                               or_null (PyExtract.functionName p),
                               or_null (Some (PyExtract.callSignature p))))
                    (firstn 150 python) in
      let filePaths := flattenFileTree fileTree 3 400 in
      let req := {| req_apiKey := key; req_hits := hs; req_python := py;
                    req_paths := filePaths |} in
      match server req with
      | None => ([req], Returned None)
      | Some data =>
          match parse_reply data with
          | Returned r => ([req], Returned r)
          | Threw => ([req], Returned None)          (* catch { return null; } *)
          end
      end
  end.

End Analyze.

End Narrative.

(** ** The scan route: [extractPythonPrompts] and [POST] *)

Module Scan.
Import Str Walk.

(** The template literal written by [ensurePythonScript], with each double
    quote of the Python source written as a tilde (the script contains no
    tilde) and restored by [script]. *)
Definition script_src : string := "
import ast
import json
import sys
import os

LLM_CALLEE_NAMES = {
    (~openai~, ~ChatCompletion~, ~create~),
    (~openai~, ~chat~, ~completions~, ~create~),
    (~client~, ~chat~, ~completions~, ~create~),
    (~anthropic~, ~messages~, ~create~),
    (~llm~, ~invoke~),
}

class PromptVisitor(ast.NodeVisitor):
    def __init__(self, file_path):
        self.file_path = file_path
        self.results = []
        self.func_stack = []

    def visit_FunctionDef(self, node):
        self.func_stack.append(node.name)
        self.generic_visit(node)
        self.func_stack.pop()

    def visit_AsyncFunctionDef(self, node):
        self.visit_FunctionDef(node)

    def _callee_segments(self, node):
        segs = []
        while isinstance(node, ast.Attribute):
            segs.append(node.attr)
            node = node.value
        if isinstance(node, ast.Name):
            segs.append(node.id)
        segs.reverse()
        return tuple(segs)

    def _extract_string(self, node):
        if isinstance(node, ast.Constant) and isinstance(node.value, str):
            return node.value
        if isinstance(node, ast.JoinedStr):
            parts = []
            for v in node.values:
                if isinstance(v, ast.Constant) and isinstance(v.value, str):
                    parts.append(v.value)
            return ~~.join(parts)
        return None

    def _infer_role_from_kw(self, kwarg_name):
        if kwarg_name in (~system~, ~system_prompt~): return ~system~
        if kwarg_name in (~user~, ~prompt~, ~input~): return ~user~
        if kwarg_name in (~tool~, ~tools_prompt~): return ~tool~
        return ~unknown~

    def visit_Call(self, node):
        callee = self._callee_segments(node.func)
        # Look for probable LLM call patterns
        if any(callee[-len(s):] == s for s in LLM_CALLEE_NAMES if len(callee) >= len(s)):
            # kwarg-based
            for kw in node.keywords:
                text = self._extract_string(kw.value)
                if text:
                    self.results.append({
                        ~role~: self._infer_role_from_kw(kw.arg) if kw.arg else ~unknown~,
                        ~text~: text,
                        ~filePath~: self.file_path,
                        ~line~: node.lineno,
                        ~functionName~: self.func_stack[-1] if self.func_stack else None,
                        ~callSignature~: ~.~.join(callee),
                    })
            # args-based: look for list/dict with role/text
            for arg in node.args:
                if isinstance(arg, ast.Dict):
                    keys = [k.s if isinstance(k, ast.Constant) else None for k in arg.keys]
                    values = arg.values
                    role = None
                    text = None
                    if keys and ~role~ in keys and ~content~ in keys:
                        for k, v in zip(keys, values):
                            if k == ~role~:
                                if isinstance(v, ast.Constant) and isinstance(v.value, str):
                                    role = v.value
                            if k == ~content~:
                                text = self._extract_string(v)
                        if text:
                            self.results.append({
                                ~role~: role or ~unknown~,
                                ~text~: text,
                                ~filePath~: self.file_path,
                                ~line~: node.lineno,
                                ~functionName~: self.func_stack[-1] if self.func_stack else None,
                                ~callSignature~: ~.~.join(callee),
                            })
                elif isinstance(arg, ast.List):
                    for elt in arg.elts:
                        if isinstance(elt, ast.Dict):
                            keys = [k.s if isinstance(k, ast.Constant) else None for k in elt.keys]
                            values = elt.values
                            role = None
                            text = None
                            if keys and ~role~ in keys and ~content~ in keys:
                                for k, v in zip(keys, values):
                                    if k == ~role~:
                                        if isinstance(v, ast.Constant) and isinstance(v.value, str):
                                            role = v.value
                                    if k == ~content~:
                                        text = self._extract_string(v)
                                if text:
                                    self.results.append({
                                        ~role~: role or ~unknown~,
                                        ~text~: text,
                                        ~filePath~: self.file_path,
                                        ~line~: node.lineno,
                                        ~functionName~: self.func_stack[-1] if self.func_stack else None,
                                        ~callSignature~: ~.~.join(callee),
                                    })
        self.generic_visit(node)


def extract_from_file(file_path):
    try:
        with open(file_path, 'r', encoding='utf-8') as f:
            source = f.read()
        tree = ast.parse(source)
        v = PromptVisitor(file_path)
        v.visit(tree)
        return v.results
    except Exception:
        return []


def walk_dir(root):
    results = []
    for dirpath, _, filenames in os.walk(root):
        for name in filenames:
            if name.endswith('.py'):
                path = os.path.join(dirpath, name)
                results.extend(extract_from_file(path))
    return results


def main():
    root = sys.argv[1]
    items = walk_dir(root)
    print(json.dumps(items))


if __name__ == '__main__':
    main()
".

Definition script : string :=
  string_of_list_ascii
    (map (fun c => if Ascii.eqb c "~"%char then ascii_of_nat 34 else c)
         (list_ascii_of_string script_src)).

Definition tmp_name : string := ".tmp-extractor".
Definition script_name : string := "python_prompt_extractor.py".

(** [fs.mkdir(tempDir, { recursive: true })] with [tempDir] the child
    [.tmp-extractor] of the target directory (which exists): created when
    absent, accepted when it is a directory, [EEXIST] otherwise.  Write
    permissions are not modelled.  An [Other] entry (such as a symbolic
    link, which Node follows) is outside this model: it is treated as a
    failure here, and the results about writes assume there is none. *)
Definition mkdir_tmp (root : node) : option node :=
  match root with
  | Dir nm r children =>
      match find (fun c => String.eqb (name_of c) tmp_name) children with
      | None => Some (Dir nm r (children ++ [Dir tmp_name true []]))
      | Some (Dir _ _ _) => Some root
      | Some _ => None
      end
  | _ => None
  end.

Definition script_file : node := File script_name (String.length script) script.

(** [fs.writeFile(scriptPath, script, "utf8")] inside [tempDir]: creates
    or truncates the file, [EISDIR] when a directory is in the way.  As
    for [mkdir_tmp], an [Other] entry (such as a symbolic link, which Node
    follows) is outside this model and treated as a failure. *)
Definition write_in_tmp (d : node) : option node :=
  match d with
  | Dir nm r children =>
      match find (fun c => String.eqb (name_of c) script_name) children with
      | None => Some (Dir nm r (children ++ [script_file]))
      | Some (File _ _ _) =>
          Some (Dir nm r (map (fun c => if String.eqb (name_of c) script_name
                                        then script_file else c) children))
      | Some _ => None
      end
  | _ => None
  end.

Definition write_script (root : node) : option node :=
  match root with
  | Dir nm r children =>
      match find (fun c => String.eqb (name_of c) tmp_name) children with
      | Some d =>
          match write_in_tmp d with
          | Some d' => Some (Dir nm r (map (fun c => if String.eqb (name_of c) tmp_name
                                                     then d' else c) children))
          | None => None
          end
      | None => None
      end
  | _ => None
  end.

(** [ensurePythonScript(join(projectRoot, ".tmp-extractor"))]: the new
    filesystem and whether the promise resolved. *)
Definition ensurePythonScript (root : node) : node * bool :=
  match mkdir_tmp root with
  | None => (root, false)
  | Some root1 =>
      match write_script root1 with
      | Some root2 => (root2, true)
      | None => (root1, false)
      end
  end.

(** How the spawned [python3] process ended: its [close] code ([None]
    for a signal) and its standard output. *)
Record proc_outcome := { exit_code : option Z; stdout : string }.

(** Every entry below the target directory with its path. *)
Fixpoint entries (dir : string) (n : node) {struct n} : list (string * node) :=
  match n with
  | Dir _ _ children =>
      (fix go (es : list node) :=
         match es with
         | [] => []
         | e :: es' => let p := join dir (name_of e) in (p, e) :: entries p e ++ go es'
         end) children
  | _ => []
  end.

(** Path resolution for [fs.stat] and [fs.readFile]. *)
Definition resolve (root : string) (tree : node) (p : string) : option node :=
  option_map snd (find (fun '(q, _) => String.eqb q p) (entries root tree)).

Record AggregatedResult :=
  { python : list PyExtract.PythonPrompt;
    secrets : list Secrets.SecretFinding;
    keywords : list Keywords.PromptKeywordHit;
    analysis : option Narrative.json;
    fileTree : option FileTreeNode }.

Section Pipeline.
Variable localeCompare : string -> string -> comparison.
(** [JSON.parse(out) as PythonPrompt[]]: [None] when it throws. *)
Variable parse_prompts : string -> option (list PyExtract.PythonPrompt).
Variable JSON_parse : string -> option Narrative.json.
Variable array_to_string : list Narrative.json -> string.

(** [extractPythonPrompts(projectRoot)]: the filesystem after the call
    and the promise's outcome ([None]: rejected).  The [python3] process
    is given by its exit code and output only: its own filesystem effect
    is taken to be none.  That is exact when [.tmp-extractor] holds only
    the script: the script only reads the tree (it [open]s files for
    reading), and its imports ([ast], [json], [sys], [os]) then come from
    the standard library.  Modules placed in a [.tmp-extractor] that
    existed before would be imported from there (first entry of the
    module path) and could write anything; that case is outside this
    model. *)
Definition extractPythonPrompts (root : node) (proc : proc_outcome)
  : node * option (list PyExtract.PythonPrompt) :=
  let '(root', ok) := ensurePythonScript root in
  if negb ok then (root', None)
  else match exit_code proc with
       | Some 0%Z => (root', parse_prompts (stdout proc))
       | _ => (root', None)                 (* code !== 0: reject *)
       end.

(** The [for (const file of files)] loop of [POST]. *)
Fixpoint scan_files (root : string) (tree : node) (files : list string)
    (secretFindings : list Secrets.SecretFinding)
    (promptKeywordHits : list Keywords.PromptKeywordHit)
  : list Secrets.SecretFinding * list Keywords.PromptKeywordHit :=
  match files with
  | [] => (secretFindings, promptKeywordHits)
  | file :: files' =>
      if includes (lower_string file) "prisma"
      then scan_files root tree files' secretFindings promptKeywordHits
      else
        match resolve root tree file with
        | Some (File _ size content) =>
            if 1024 * 1024 <? size
            then scan_files root tree files' secretFindings promptKeywordHits
            else
              let findings := Secrets.scanTextForSecrets content file in
              let secretFindings := secretFindings ++ firstn 5 findings in
              let promptHits := Keywords.scanTextForPromptKeywords content file in
              let promptKeywordHits := promptKeywordHits ++ firstn 10 promptHits in
              if 200 <? length secretFindings
              then (secretFindings, promptKeywordHits)           (* break *)
              else scan_files root tree files' secretFindings promptKeywordHits
        | _ => scan_files root tree files' secretFindings promptKeywordHits
                                                    (* stat/readFile threw *)
        end
  end.

(** [POST] from the point where [targetDir] has been validated: the
    filesystem after the run and the JSON body's content. *)
Definition scan_run (useModel : bool) (targetDir : string) (fs0 : node)
    (proc : proc_outcome) (apiKey : option string)
    (server : Narrative.request -> option Narrative.json)
  : node * AggregatedResult :=
  let '(fs1, extracted) := extractPythonPrompts fs0 proc in
  let pythonPrompts := match extracted with Some ps => ps | None => [] end in
  let '(secretFindings, promptKeywordHits) :=
    match listAllFiles targetDir fs1 3000 with
    | Some files => scan_files targetDir fs1 files [] []
    | None => ([], [])
    end in
  let modelAnalysis :=
    if useModel then
      match snd (Narrative.analyzePromptContext JSON_parse array_to_string apiKey server
                   promptKeywordHits pythonPrompts
                   (Some (buildFileTree localeCompare targetDir fs1 4 1200))) with
      | Narrative.Returned a => a
      | Narrative.Threw => None
      end
    else None in
  let fileTree := Some (buildFileTree localeCompare targetDir fs1 8 5000) in
  (fs1, {| python := pythonPrompts; secrets := secretFindings;
           keywords := promptKeywordHits; analysis := modelAnalysis;
           fileTree := fileTree |}).

End Pipeline.

End Scan.

(** ** The request gate of [POST]

    [getClientIp] and the start of [POST] ([src/src/app/api/scan/route.ts]),
    [requireJwtFromRequest] ([src/src/lib/auth.ts]), [checkRateLimit]
    ([src/unnamed/part_003], [@/lib/rateLimit]) and the clone directory
    name computed by [cloneOrPullRepo] ([src/unnamed/part_003]) and
    [POST]. *)

Module Api.
Import Str Keywords.

(** [req.headers.get(name)]: [None] for [null]. *)
Definition headers := string -> option string.

(** [s.split(c)[0]] *)
Fixpoint before (c : ascii) (l : list ascii) : list ascii :=
  match l with
  | [] => []
  | d :: l' => if Ascii.eqb d c then [] else d :: before c l'
  end.

(** [if (realIp) return realIp; return "local";] *)
Definition realIp_or_local (h : headers) : string :=
  match h "x-real-ip" with
  | Some realIp => if String.eqb realIp "" then "local" else realIp
  | None => "local"
  end.

(** [getClientIp] *)
Definition getClientIp (h : headers) : string :=
  match h "x-forwarded-for" with
  | Some xff =>
      if String.eqb xff "" then realIp_or_local h
      else
        let first := string_of_list_ascii (trim_l (before ","%char (list_ascii_of_string xff))) in
        if String.eqb first "" then "unknown" else first
  | None => realIp_or_local h
  end.

(** Outcome of a function that returns or throws an [Error(message)]. *)
Inductive outcome (A : Type) := Ok (a : A) | Error (message : string).
Arguments Ok {A} a.
Arguments Error {A} message.

Definition msg_header : string := "Missing or invalid Authorization header".
Definition msg_secret : string := "Server misconfigured: missing JWT_SECRET env var".
Definition msg_jwt : string := "Invalid JWT".

Section Auth.
Variable VerifiedJwt : Type.
(** [jwt.verify(token, secret)]: [None] when it throws. *)
Variable verify : string -> string -> option VerifiedJwt.

(** [requireJwtFromRequest]; [JWT_SECRET] is [process.env.JWT_SECRET]. *)
Definition requireJwtFromRequest (h : headers) (JWT_SECRET : option string)
  : outcome VerifiedJwt :=
  let authHeader :=
    match h "authorization" with
    | Some a => if String.eqb a "" then h "Authorization" else Some a
    | None => h "Authorization"
    end in
  match authHeader with
  | None => Error msg_header
  | Some a =>
      if String.eqb a "" || negb (prefixb (list_ascii_of_string "Bearer ") (list_ascii_of_string a))
      then Error msg_header
      else
        let token := string_of_list_ascii (trim_l (skipn 7 (list_ascii_of_string a))) in
        match JWT_SECRET with
        | None => Error msg_secret
        | Some secret =>
            if String.eqb secret "" then Error msg_secret
            else match verify token secret with
                 | Some payload => Ok payload
                 | None => Error msg_jwt
                 end
        end
  end.
End Auth.

Record RateRecord := { count : Z; resetAtMs : Z }.

Definition RATE_LIMIT_WINDOW_MS : Z := 60000.
Definition RATE_LIMIT_MAX : Z := 4.

(** [ipToRecord], a [Map] in insertion order. *)
Definition rate_map := list (string * RateRecord).

(** [map.get(k)] *)
Fixpoint map_get (k : string) (m : rate_map) : option RateRecord :=
  match m with
  | [] => None
  | (k', v) :: m' => if String.eqb k k' then Some v else map_get k m'
  end.

(** [map.set(k, v)]: an existing key keeps its place. *)
Fixpoint map_set (k : string) (v : RateRecord) (m : rate_map) : rate_map :=
  match m with
  | [] => [(k, v)]
  | (k', v') :: m' => if String.eqb k k' then (k, v) :: m' else (k', v') :: map_set k v m'
  end.

Inductive rate_result := RateOk | RateLimited (retryAfterSeconds : Z).

(** [checkRateLimit(ip)] at [now = Date.now()], with the table before
    and after the call.  [record.count += 1] mutates the record stored
    in the map; [Math.ceil((resetAtMs - now) / 1000)] is
    [- floor((now - resetAtMs) / 1000)]. *)
Definition checkRateLimit (now : Z) (ip : string) (m : rate_map) : rate_result * rate_map :=
  match map_get ip m with
  | Some record =>
      if (resetAtMs record <? now)%Z
      then (RateOk, map_set ip {| count := 1; resetAtMs := now + RATE_LIMIT_WINDOW_MS |} m)
      else if (RATE_LIMIT_MAX <=? count record)%Z
      then (RateLimited (Z.max 1 (- ((now - resetAtMs record) / 1000))), m)
      else (RateOk, map_set ip {| count := count record + 1; resetAtMs := resetAtMs record |} m)
  | None => (RateOk, map_set ip {| count := 1; resetAtMs := now + RATE_LIMIT_WINDOW_MS |} m)
  end.

Section Post.
Variable VerifiedJwt : Type.
Variable verify : string -> string -> option VerifiedJwt.

(** The start of [POST]: the JWT check, then the rate limit.  The
    limiter table after the request, and [Some status] when [POST]
    answers there ([None]: it goes on to validate the body). *)
Definition post_gate (JWT_SECRET : option string) (now : Z) (m : rate_map) (h : headers)
  : rate_map * option nat :=
  match requireJwtFromRequest VerifiedJwt verify h JWT_SECRET with
  | Error _ => (m, Some 401)
  | Ok _ =>
      let ip := getClientIp h in
      let '(rate, m') := checkRateLimit now ip m in
      match rate with
      | RateOk => (m', None)
      | RateLimited _ => (m', Some 429)
      end
  end.
End Post.

(** [s.split("/").pop()] *)
Fixpoint last_seg (l : list ascii) (cur : list ascii) : list ascii :=
  match l with
  | [] => rev cur
  | d :: l' => if Ascii.eqb d "/"%char then last_seg l' [] else last_seg l' (d :: cur)
  end.

(** [s.replace(/\.git$/, "")] *)
Definition strip_dot_git (l : list ascii) : list ascii :=
  let n := length l in
  if (4 <=? n) && String.eqb (string_of_list_ascii (skipn (n - 4) l)) ".git"
  then firstn (n - 4) l else l.

(** [repoUrl.split("/").pop()?.replace(/\.git$/, "") || "repo"], the
    name of the clone directory in [cloneOrPullRepo] and [POST]. *)
Definition repoName (repoUrl : string) : string :=
  let name := string_of_list_ascii
                (strip_dot_git (last_seg (list_ascii_of_string repoUrl) [])) in
  if String.eqb name "" then "repo" else name.

End Api.

(** * Properties *)

(** ** The matcher only moves forward *)

Module RegexFacts.
Import Str Regex.

(** Patterns that consume at least one character on every path. *)
Fixpoint consumes (r : re) : bool :=
  match r with
  | Chr _ | Cls _ | Dot => true
  | Seq r1 r2 => consumes r1 || consumes r2
  | Alt r1 r2 => consumes r1 && consumes r2
  | Group _ r1 => consumes r1
  | _ => false
  end.

Section Facts.
Variable inp : list ascii.
Variable ic : bool.

Lemma backref_ok_bound a i len :
  backref_ok inp ic a i len = true -> i + len <= length inp \/ len = 0.
Proof.
  revert a i; induction len as [|len IH]; intros a i H; simpl in H.
  - right; reflexivity.
  - left.
    destruct (nth_error inp a) eqn:E1; [|discriminate].
    destruct (nth_error inp i) eqn:E2; [|discriminate].
    apply andb_prop in H as [_ H]. apply IH in H.
    assert (i < length inp) by (apply nth_error_Some; congruence). lia.
Qed.

Ltac step_char :=
  match goal with
  | H : match nth_error ?l ?p with _ => _ end = Some _ |- _ =>
      let E := fresh "E" in
      destruct (nth_error l p) eqn:E; [|discriminate];
      assert (p < length l) by (apply nth_error_Some; congruence)
  end.

Definition forward (mr : mstate -> (mstate -> option mstate) -> option mstate) : Prop :=
  forall s k x, mr s k = Some x ->
  exists s', pos s <= pos s' /\ (pos s <= length inp -> pos s' <= length inp) /\ k s' = Some x.

Lemma star_loop_mono mr g k fuel :
  forward mr -> forall s x, star_loop mr g k fuel s = Some x ->
  exists s', pos s <= pos s' /\ (pos s <= length inp -> pos s' <= length inp) /\ k s' = Some x.
Proof.
  intros Hmr. induction fuel as [|fuel IHf]; intros s x H; [discriminate|].
  simpl in H. destruct g.
  - destruct (mr s _) eqn:E.
    + inversion H; subst.
      apply Hmr in E as (s1 & L1 & B1 & E1).
      destruct (pos s1 =? pos s); [discriminate|].
      apply IHf in E1 as (s2 & L2 & B2 & E2).
      exists s2; repeat split; auto; lia.
    + exists s; repeat split; auto.
  - destruct (k s) eqn:Ek.
    + inversion H; subst. exists s; repeat split; auto.
    + apply Hmr in H as (s1 & L1 & B1 & E1).
      destruct (pos s1 =? pos s); [discriminate|].
      apply IHf in E1 as (s2 & L2 & B2 & E2).
      exists s2; repeat split; auto; lia.
Qed.

Lemma m_mono r : forall s k x,
  m inp ic r s k = Some x ->
  exists s', pos s <= pos s' /\ (pos s <= length inp -> pos s' <= length inp) /\ k s' = Some x.
Proof.
  induction r as [c|p| |r1 IH1 r2 IH2|r1 IH1 r2 IH2|g r1 IH|n r1 IH|n| |];
    intros s k x H; cbn [m] in H.
  - step_char. destruct (char_eq ic c a); [|discriminate].
    exists (MS (S (pos s)) (caps s)); simpl; repeat split; auto; lia.
  - step_char. destruct (cls_match ic p a); [|discriminate].
    exists (MS (S (pos s)) (caps s)); simpl; repeat split; auto; lia.
  - step_char. destruct (is_line_term a); [discriminate|].
    exists (MS (S (pos s)) (caps s)); simpl; repeat split; auto; lia.
  - apply IH1 in H as (s1 & L1 & B1 & H1). apply IH2 in H1 as (s2 & L2 & B2 & H2).
    exists s2; repeat split; auto; lia.
  - destruct (m inp ic r1 s k) eqn:E.
    + inversion H; subst. apply IH1 in E; exact E.
    + apply IH2 in H; exact H.
  - eapply star_loop_mono; [|exact H]. exact IH.
  - apply IH in H as (s1 & L1 & B1 & H1).
    eexists; split; [|split; [|exact H1]]; simpl; auto.
  - destruct (nth n (caps s) None) as [[a b]|].
    + destruct (backref_ok inp ic a (pos s) (b - a)) eqn:E; [|discriminate].
      exists (MS (pos s + (b - a)) (caps s)); simpl; repeat split; auto; [lia|].
      intros Hb. apply backref_ok_bound in E as [E|E]; lia.
    + exists s; repeat split; auto.
  - destruct (is_boundary inp (pos s)); [|discriminate]. exists s; repeat split; auto.
  - exists s; repeat split; auto.
Qed.

Lemma m_consumes r : consumes r = true -> forall s k x,
  m inp ic r s k = Some x ->
  exists s', pos s < pos s' /\ (pos s <= length inp -> pos s' <= length inp) /\ k s' = Some x.
Proof.
  induction r as [c|p| |r1 IH1 r2 IH2|r1 IH1 r2 IH2|g r1 IH|n r1 IH|n| |];
    intros Hc s k x H; cbn [m consumes] in H, Hc; try discriminate.
  - step_char. destruct (char_eq ic c a); [|discriminate].
    exists (MS (S (pos s)) (caps s)); simpl; repeat split; auto; lia.
  - step_char. destruct (cls_match ic p a); [|discriminate].
    exists (MS (S (pos s)) (caps s)); simpl; repeat split; auto; lia.
  - step_char. destruct (is_line_term a); [discriminate|].
    exists (MS (S (pos s)) (caps s)); simpl; repeat split; auto; lia.
  - apply orb_true_iff in Hc as [Hc|Hc].
    + apply IH1 in H as (s1 & L1 & B1 & H1); [|exact Hc].
      apply m_mono in H1 as (s2 & L2 & B2 & H2).
      exists s2; repeat split; auto; lia.
    + apply m_mono in H as (s1 & L1 & B1 & H1).
      apply IH2 in H1 as (s2 & L2 & B2 & H2); [|exact Hc].
      exists s2; repeat split; auto; lia.
  - apply andb_prop in Hc as [Hc1 Hc2].
    destruct (m inp ic r1 s k) eqn:E.
    + inversion H; subst. apply IH1 in E; auto.
    + apply IH2 in H; auto.
  - apply IH in H as (s1 & L1 & B1 & H1); [|exact Hc].
    eexists; split; [|split; [|exact H1]]; simpl; auto.
Qed.

End Facts.

Definition init (r : regexp) (i : nat) : mstate := MS i (repeat None (S (ngroups r))).

Lemma search_spec inp r fuel : forall start i s,
  search inp r start fuel = Some (i, s) ->
  start <= i < start + fuel /\
  m inp (icase r) (source r) (init r i) (fun s => Some s) = Some s.
Proof.
  induction fuel as [|fuel IH]; intros start i s H; simpl in H; [discriminate|].
  destruct (m inp (icase r) (source r) _ _) eqn:E.
  - inversion H; subst. split; [lia|exact E].
  - apply IH in H as [H1 H2]. split; [lia|exact H2].
Qed.

Lemma exec_spec inp r li i s :
  exec inp r li = Some (i, s) ->
  li <= i <= length inp /\
  m inp (icase r) (source r) (init r i) (fun s => Some s) = Some s.
Proof.
  unfold exec. destruct (length inp <? li) eqn:E; [discriminate|].
  apply Nat.ltb_ge in E. intros H. apply search_spec in H as [H1 H2].
  split; [lia|exact H2].
Qed.

Lemma exec_consumes inp r li i s :
  consumes (source r) = true -> exec inp r li = Some (i, s) ->
  li <= i < pos s /\ pos s <= length inp.
Proof.
  intros Hc H. apply exec_spec in H as [H1 H2].
  apply m_consumes in H2 as (s' & L & B & E); [|exact Hc].
  inversion E; subst. simpl in L, B. split; [lia|]. apply B; lia.
Qed.

(** The global [exec] loop of a pattern that cannot match the empty
    string: every match is non-empty and lies inside the input. *)
Lemma exec_loop_nonempty inp r fuel : consumes (source r) = true ->
  forall li x, In x (exec_loop inp r li fuel) ->
  li <= fst x < pos (snd x) /\ pos (snd x) <= length inp.
Proof.
  intros Hc. induction fuel as [|fuel IH]; intros li x H; simpl in H; [contradiction|].
  destruct (exec inp r li) as [[i s]|] eqn:E; [|contradiction].
  pose proof (exec_consumes _ _ _ _ _ Hc E) as [H1 H2].
  destruct (pos s =? i) eqn:Ep; [apply Nat.eqb_eq in Ep; lia|].
  destruct H as [H|H].
  - subst x. simpl. repeat split; lia.
  - apply IH in H as [H3 H4]. repeat split; lia.
Qed.

End RegexFacts.

(** ** Secret scanner *)

Module SecretsFacts.
Import Str Regex RegexFacts Secrets.

Lemma string_of_list_ascii_app (a b : list ascii) :
  string_of_list_ascii (a ++ b) = (string_of_list_ascii a ++ string_of_list_ascii b)%string.
Proof. induction a as [|c a IH]; simpl; [reflexivity|]. rewrite IH; reflexivity. Qed.

Lemma patterns_consume name r : In (name, r) patterns -> consumes (source r) = true.
Proof. simpl; intros [H|[H|[H|[]]]]; inversion H; subst; reflexivity. Qed.

(** No secret pattern matches the empty string, so the [exec] loop of
    [scanTextForSecrets] always advances. *)
Lemma no_empty_match name r inp x :
  In (name, r) patterns -> In x (exec_all inp r) ->
  fst x < pos (snd x) <= length inp.
Proof.
  intros Hp Hx. apply patterns_consume in Hp.
  apply exec_loop_nonempty in Hx as [H1 H2]; [lia|exact Hp].
Qed.

Lemma in_scan_lines fp ls : forall k f,
  In f (scan_lines fp k ls) <->
  exists i l, nth_error ls i = Some l /\ In f (scan_line fp (k + i) l).
Proof.
  induction ls as [|l ls IH]; intros k f; simpl.
  - split; [contradiction|]. intros (i & l & H & _). destruct i; discriminate.
  - rewrite in_app_iff, IH. split.
    + intros [H|(i & l' & H1 & H2)].
      * exists 0, l. rewrite Nat.add_0_r. auto.
      * exists (S i), l'. rewrite Nat.add_succ_r. auto.
    + intros ([|i] & l' & H1 & H2); simpl in H1.
      * inversion H1; subst. rewrite Nat.add_0_r in H2. auto.
      * right. exists i, l'. rewrite Nat.add_succ_r in H2. auto.
Qed.

Lemma in_scan_line fp j l f :
  In f (scan_line fp j l) <->
  exists name r x, In (name, r) patterns /\ In x (exec_all (list_ascii_of_string l) r) /\
    f = {| match_ := group0 (list_ascii_of_string l) x; filePath := fp; line := j + 1 |}.
Proof.
  unfold scan_line. rewrite in_flat_map. split.
  - intros ([name r] & Hp & Hf). apply in_map_iff in Hf as (x & Hx & Hin).
    exists name, r, x. auto.
  - intros (name & r & x & Hp & Hx & ->). exists (name, r). split; [exact Hp|].
    apply in_map_iff. exists x. auto.
Qed.

Lemma slice_infix (l : list ascii) a b : a <= b ->
  l = firstn a l ++ slice_l l a b ++ skipn b l.
Proof.
  intros Hab. unfold slice_l.
  rewrite <- (firstn_skipn a l) at 1. f_equal.
  replace (skipn b l) with (skipn (b - a) (skipn a l)).
  - symmetry. apply firstn_skipn.
  - rewrite skipn_skipn. f_equal. lia.
Qed.

Lemma slice_nonempty (l : list ascii) a b : a < b <= length l -> slice_l l a b <> [].
Proof.
  intros H Hn. unfold slice_l in Hn.
  apply (f_equal (@length ascii)) in Hn. rewrite length_firstn, length_skipn in Hn.
  simpl in Hn. lia.
Qed.

(** ** C4 (corrected): what [scanTextForSecrets] reports.
    A finding is reported exactly when it is one of the matches found by
    a pattern's left-to-right global [exec] scan of one line, so every
    non-overlapping match of each pattern on each line is reported; its
    [match] is the substring that scan matched (leftmost and greedy), a
    non-empty substring of its line, and [line] is the 1-based line
    number. *)
Theorem scanTextForSecrets_matches (text fp : string) (f : SecretFinding) :
  (In f (scanTextForSecrets text fp) <->
   exists i l name r x,
     nth_error (split_lines text) i = Some l /\ In (name, r) patterns /\
     In x (exec_all (list_ascii_of_string l) r) /\
     f = {| match_ := group0 (list_ascii_of_string l) x; filePath := fp; line := i + 1 |})
  /\
  (In f (scanTextForSecrets text fp) ->
   exists l pre post,
     nth_error (split_lines text) (line f - 1) = Some l /\ 1 <= line f /\
     match_ f <> "" /\ l = (pre ++ match_ f ++ post)%string).
Proof.
  assert (Hiff : In f (scanTextForSecrets text fp) <->
   exists i l name r x,
     nth_error (split_lines text) i = Some l /\ In (name, r) patterns /\
     In x (exec_all (list_ascii_of_string l) r) /\
     f = {| match_ := group0 (list_ascii_of_string l) x; filePath := fp; line := i + 1 |}).
  { unfold scanTextForSecrets. rewrite in_scan_lines. split.
    - intros (i & l & H1 & H2). apply in_scan_line in H2 as (name & r & x & H3 & H4 & H5).
      exists i, l, name, r, x. auto.
    - intros (i & l & name & r & x & H1 & H2 & H3 & H4). exists i, l. split; [exact H1|].
      apply in_scan_line. exists name, r, x. auto. }
  split; [exact Hiff|].
  intros Hin. apply Hiff in Hin as (i & l & name & r & x & H1 & H2 & H3 & ->).
  pose proof (no_empty_match _ _ _ _ H2 H3) as Hx. simpl.
  set (inp := list_ascii_of_string l) in *.
  exists l, (string_of_list_ascii (firstn (fst x) inp)),
            (string_of_list_ascii (skipn (pos (snd x)) inp)).
  replace (i + 1 - 1) with i by lia.
  repeat split; [exact H1|lia| |].
  - unfold group0. intros He.
    apply (f_equal list_ascii_of_string) in He.
    rewrite list_ascii_of_string_of_list_ascii in He.
    apply (slice_nonempty inp (fst x) (pos (snd x))); [lia|exact He].
  - unfold group0. rewrite <- !string_of_list_ascii_app, <- slice_infix by lia.
    subst inp. symmetry. apply string_of_list_ascii_of_string.
Qed.

(** C4, counterexample: on the line [sk-] followed by 21 letters the
    reported match is the whole line, although its 23-character prefix is
    already matched in full by the same pattern: the match is greedy, not
    minimal, and can be the whole line. *)
Lemma scanTextForSecrets_whole_line_cex :
  scanTextForSecrets "sk-aaaaaaaaaaaaaaaaaaaaa" "f" =
    [{| match_ := "sk-aaaaaaaaaaaaaaaaaaaaa"; filePath := "f"; line := 1 |}]
  /\ split_lines "sk-aaaaaaaaaaaaaaaaaaaaa" = ["sk-aaaaaaaaaaaaaaaaaaaaa"]
  /\ (exists s, exec (list_ascii_of_string "sk-aaaaaaaaaaaaaaaaaaaa") openai_key 0 = Some (0, s)
       /\ group0 (list_ascii_of_string "sk-aaaaaaaaaaaaaaaaaaaa") (0, s)
          = "sk-aaaaaaaaaaaaaaaaaaaa")
  /\ String.length "sk-aaaaaaaaaaaaaaaaaaaa" < String.length "sk-aaaaaaaaaaaaaaaaaaaaa".
Proof.
  split; [vm_compute; reflexivity|].
  split; [vm_compute; reflexivity|].
  split; [|vm_compute; lia].
  eexists. split; [vm_compute; reflexivity|vm_compute; reflexivity].
Qed.

End SecretsFacts.

(** ** Keyword scanner *)

Module KeywordsFacts.
Import Str Regex Keywords.

Fixpoint colon_free (s : string) : bool :=
  match s with
  | EmptyString => true
  | String c s' => negb (Ascii.eqb c ":") && colon_free s'
  end.

(** The de-duplication key of a returned hit. *)
Definition hit_key (h : PromptKeywordHit) : string :=
  key (matchLabel h) (line h) (snippet h).

Definition is_matcher_label (l : string) : bool :=
  existsb (String.eqb l) (map fst keywordMatchers).

(** The hit the block loop builds from one match [x] of [bp]. *)
Definition cand (fp : string) (t : list ascii) (bp : blockPattern) (x : nat * mstate)
  : PromptKeywordHit :=
  {| filePath := fp; line := lineNumberAtIndex t (fst x); matchLabel := label bp;
     snippet := match group t x (groupIndex bp) with Some c => c | None => "" end |}.

(** All block matches, pattern by pattern, before de-duplication. *)
Definition block_candidates (fp : string) (t : list ascii) : list PromptKeywordHit :=
  flat_map (fun bp => map (cand fp t bp) (exec_all t (regex bp))) blockPatterns.

(** Append [h] unless a hit with the same key is already there. *)
Definition emit (acc : list PromptKeywordHit) (h : PromptKeywordHit) : list PromptKeywordHit :=
  if existsb (String.eqb (hit_key h)) (map hit_key acc) then acc else acc ++ [h].

Definition emit_all (l acc : list PromptKeywordHit) : list PromptKeywordHit :=
  fold_left emit l acc.

(** The hit of the first predicate of [ms] matching line [i]. *)
Definition pick (fp : string) (lines : list string) (i : nat)
    (ms : list (string * (string -> bool))) : option PromptKeywordHit :=
  match find (fun lt => snd lt (nth i lines "")) ms with
  | Some (lbl, _) => Some {| filePath := fp; line := i + 1; matchLabel := lbl;
                             snippet := line_snippet lines i |}
  | None => None
  end.

Definition first_match (fp : string) (lines : list string) (i : nat) : option PromptKeywordHit :=
  pick fp lines i keywordMatchers.

Definition opt_list {A} (o : option A) : list A :=
  match o with Some x => [x] | None => [] end.

(** One hit per line with a matching predicate, with no de-duplication. *)
Definition line_hits (fp : string) (lines : list string) : list PromptKeywordHit :=
  flat_map (fun i => opt_list (first_match fp lines i)) (seq 0 (length lines)).

Definition line_label_at (i : nat) (h : PromptKeywordHit) : bool :=
  (line h =? i + 1) && is_matcher_label (matchLabel h).

(** Whitespace-normal text: its only whitespace is single spaces, none
    at either end. *)
Definition adj_ok (l : list ascii) : Prop :=
  forall x y a b, l = x ++ a :: b :: y -> is_space a = false \/ is_space b = false.

Definition ws_normal (l : list ascii) : Prop :=
  (forall c, In c l -> is_space c = true -> c = " "%char) /\ adj_ok l /\
  (forall c l', l = c :: l' -> is_space c = false) /\
  (forall c l', l = l' ++ [c] -> is_space c = false).

Definition Inv (seen : list string) (hits : list PromptKeywordHit) : Prop :=
  (forall k, In k seen <-> In k (map hit_key hits)) /\ NoDup (map hit_key hits).

Definition LInv (i : nat) (seen : list string) (hits : list PromptKeywordHit) : Prop :=
  Inv seen hits /\ (forall h, In h hits -> colon_free (matchLabel h) = true) /\
  (forall h, In h hits -> is_matcher_label (matchLabel h) = true -> line h <= i).

Lemma colon_split l1 : forall l2 r1 r2,
  colon_free l1 = true -> colon_free l2 = true ->
  (l1 ++ String ":" r1)%string = (l2 ++ String ":" r2)%string -> l1 = l2 /\ r1 = r2.
Proof.
  induction l1 as [|c l1 IH]; intros [|d l2] r1 r2 H1 H2 E; simpl in *.
  - injection E; auto.
  - injection E as Ed _. subst d. discriminate.
  - injection E as Ec _. subst c. discriminate.
  - apply andb_prop in H1 as [_ H1]. apply andb_prop in H2 as [_ H2].
    injection E as Ec E. subst d. destruct (IH l2 r1 r2 H1 H2 E) as [-> ->]. auto.
Qed.

Lemma show_nat_colon_free n : colon_free (show_nat n) = true.
Proof. unfold show_nat. induction (Nat.to_uint n); simpl; auto. Qed.

Lemma show_nat_inj n n' : show_nat n = show_nat n' -> n = n'.
Proof.
  unfold show_nat. intros E.
  apply (f_equal NilEmpty.uint_of_string) in E. rewrite !NilEmpty.usu in E.
  injection E as E. now apply DecimalNat.Unsigned.to_uint_inj.
Qed.

Lemma key_inj l1 n1 s1 l2 n2 s2 :
  colon_free l1 = true -> colon_free l2 = true ->
  key l1 n1 s1 = key l2 n2 s2 -> l1 = l2 /\ n1 = n2.
Proof.
  unfold key. cbn [append]. intros H1 H2 E.
  destruct (colon_split _ _ _ _ H1 H2 E) as [-> E'].
  destruct (colon_split _ _ _ _ (show_nat_colon_free n1) (show_nat_colon_free n2) E')
    as [E'' _].
  split; [reflexivity|now apply show_nat_inj].
Qed.

Lemma NoDup_snoc {A} (l : list A) x : NoDup l -> ~ In x l -> NoDup (l ++ [x]).
Proof.
  intros H Hx. rewrite <- (rev_involutive (l ++ [x])). apply NoDup_rev.
  rewrite rev_app_distr. simpl. constructor.
  - now rewrite <- in_rev.
  - now apply NoDup_rev.
Qed.

Lemma has_keys seen hits k : Inv seen hits ->
  has seen k = existsb (String.eqb k) (map hit_key hits).
Proof.
  intros [Hs _]. unfold has. apply eq_iff_eq_true. rewrite !existsb_exists.
  split; intros [x [Hx Ex]]; exists x; (split; [now apply Hs|exact Ex]).
Qed.

Lemma Inv_nil : Inv [] [].
Proof. split; [simpl; tauto|constructor]. Qed.

Lemma Inv_push seen hits h : Inv seen hits ->
  existsb (String.eqb (hit_key h)) (map hit_key hits) = false ->
  Inv (hit_key h :: seen) (hits ++ [h]).
Proof.
  intros [Hs Hn] Hf. split.
  - intros k. rewrite map_app, in_app_iff. simpl. rewrite Hs. tauto.
  - rewrite map_app. apply NoDup_snoc; [exact Hn|]. intros Hin.
    assert (existsb (String.eqb (hit_key h)) (map hit_key hits) = true) as Ht.
    { apply existsb_exists. exists (hit_key h). split; [exact Hin|apply String.eqb_refl]. }
    congruence.
Qed.

Lemma emit_all_cons h l acc : emit_all (h :: l) acc = emit_all l (emit acc h).
Proof. reflexivity. Qed.

Lemma emit_all_app l1 l2 acc : emit_all (l1 ++ l2) acc = emit_all l2 (emit_all l1 acc).
Proof. unfold emit_all. apply fold_left_app. Qed.

Lemma emit_all_in l : forall acc h, In h (emit_all l acc) -> In h l \/ In h acc.
Proof.
  induction l as [|x l IH]; intros acc h H; [now right|].
  rewrite emit_all_cons in H. apply IH in H as [H|H]; [left; now right|].
  unfold emit in H. destruct existsb; [now right|].
  apply in_app_iff in H as [H|[H|[]]]; [now right|left; now left].
Qed.

Lemma block_loop_cons fp t bp x ms seen hits :
  block_loop fp t bp (x :: ms) seen hits =
  if has seen (hit_key (cand fp t bp x)) then block_loop fp t bp ms seen hits
  else block_loop fp t bp ms (hit_key (cand fp t bp x) :: seen) (hits ++ [cand fp t bp x]).
Proof. reflexivity. Qed.

Lemma block_loop_spec fp t bp ms : forall seen hits, Inv seen hits ->
  exists seen', block_loop fp t bp ms seen hits = (seen', emit_all (map (cand fp t bp) ms) hits)
    /\ Inv seen' (emit_all (map (cand fp t bp) ms) hits).
Proof.
  induction ms as [|x ms IH]; intros seen hits HI; [exists seen; auto|].
  rewrite block_loop_cons. cbn [map]. rewrite emit_all_cons, (has_keys _ _ _ HI).
  unfold emit. destruct existsb eqn:E.
  - apply IH, HI.
  - apply IH, Inv_push; assumption.
Qed.

Lemma block_phase_spec fp t bps : forall seen hits, Inv seen hits ->
  exists seen', block_phase fp t bps seen hits =
    (seen', emit_all (flat_map (fun bp => map (cand fp t bp) (exec_all t (regex bp))) bps) hits)
    /\ Inv seen' (emit_all (flat_map (fun bp => map (cand fp t bp) (exec_all t (regex bp))) bps) hits).
Proof.
  induction bps as [|bp bps IH]; intros seen hits HI; [exists seen; auto|].
  cbn [block_phase flat_map].
  destruct (block_loop_spec fp t bp (exec_all t (regex bp)) seen hits HI) as [s1 [E1 I1]].
  rewrite E1, emit_all_app. apply IH, I1.
Qed.

Lemma blockPatterns_labels bp : In bp blockPatterns ->
  is_matcher_label (label bp) = false /\ colon_free (label bp) = true.
Proof.
  intros H.
  assert (forallb (fun bp => negb (is_matcher_label (label bp)) && colon_free (label bp))
            blockPatterns = true) as Hall by reflexivity.
  rewrite forallb_forall in Hall. apply Hall, andb_prop in H as [H1 H2].
  now rewrite negb_true_iff in H1.
Qed.

(** No block pattern matches the empty string, so its [exec] loop always
    advances. *)
Lemma block_no_empty_match bp : In bp blockPatterns -> RegexFacts.consumes (source (regex bp)) = true.
Proof.
  intros H.
  assert (forallb (fun bp => RegexFacts.consumes (source (regex bp))) blockPatterns = true)
    as Hall by reflexivity.
  rewrite forallb_forall in Hall. exact (Hall bp H).
Qed.

Lemma matchers_labels l t : In (l, t) keywordMatchers ->
  is_matcher_label l = true /\ colon_free l = true.
Proof.
  intros H. split.
  - apply existsb_exists. exists l. split; [apply (in_map fst _ _ H)|apply String.eqb_refl].
  - assert (forallb (fun lt => colon_free (fst lt)) keywordMatchers = true) as Hall
      by reflexivity.
    rewrite forallb_forall in Hall. apply (Hall _ H).
Qed.

Lemma block_candidates_in fp t h : In h (block_candidates fp t) ->
  exists bp x, In bp blockPatterns /\ h = cand fp t bp x.
Proof.
  unfold block_candidates. rewrite in_flat_map. intros (bp & Hbp & Hh).
  apply in_map_iff in Hh as (x & <- & _). eauto.
Qed.

Lemma fresh_key i seen hits l s : LInv i seen hits ->
  colon_free l = true -> is_matcher_label l = true ->
  existsb (String.eqb (key l (i + 1) s)) (map hit_key hits) = false.
Proof.
  intros (_ & Hc & Hl) Hcl Hml. destruct existsb eqn:E; [|reflexivity]. exfalso.
  apply existsb_exists in E as (k & Hk & Ek). apply String.eqb_eq in Ek.
  apply in_map_iff in Hk as (h & <- & Hh). unfold hit_key in Ek.
  apply key_inj in Ek as [El En]; [|exact Hcl|now apply Hc].
  rewrite El in Hml. specialize (Hl h Hh Hml). lia.
Qed.

Lemma try_matchers_cons fp lines i l t ms seen hits :
  try_matchers fp lines i ((l, t) :: ms) seen hits =
  if t (nth i lines "") then
    if has seen (key l (i + 1) (line_snippet lines i)) then try_matchers fp lines i ms seen hits
    else (key l (i + 1) (line_snippet lines i) :: seen,
          hits ++ [{| filePath := fp; line := i + 1; matchLabel := l;
                      snippet := line_snippet lines i |}])
  else try_matchers fp lines i ms seen hits.
Proof. reflexivity. Qed.

Lemma pick_cons fp lines i l t ms :
  pick fp lines i ((l, t) :: ms) =
  if t (nth i lines "") then
    Some {| filePath := fp; line := i + 1; matchLabel := l; snippet := line_snippet lines i |}
  else pick fp lines i ms.
Proof. unfold pick. simpl. destruct (t (nth i lines "")); reflexivity. Qed.

Lemma try_matchers_spec fp lines i ms seen hits :
  (forall l t, In (l, t) ms -> is_matcher_label l = true /\ colon_free l = true) ->
  LInv i seen hits ->
  try_matchers fp lines i ms seen hits =
  match pick fp lines i ms with
  | Some h => (hit_key h :: seen, hits ++ [h])
  | None => (seen, hits)
  end.
Proof.
  intros Hms HL. induction ms as [|[l t] ms IH]; [reflexivity|].
  rewrite try_matchers_cons, pick_cons.
  destruct (t (nth i lines "")).
  - destruct (Hms l t (or_introl eq_refl)) as [Hml Hcl].
    rewrite (has_keys _ _ _ (proj1 HL)), (fresh_key _ _ _ _ _ HL Hcl Hml). reflexivity.
  - apply IH. intros l' t' H. apply (Hms l' t'). now right.
Qed.

Lemma pick_some fp lines i ms h : pick fp lines i ms = Some h ->
  exists l t, In (l, t) ms /\
    h = {| filePath := fp; line := i + 1; matchLabel := l; snippet := line_snippet lines i |}.
Proof.
  unfold pick. destruct find as [[l t]|] eqn:E; [|discriminate]. intros Eh.
  injection Eh as <-. apply find_some in E as [E _]. eauto.
Qed.

Lemma line_phase_spec fp lines n : forall i seen hits, LInv i seen hits ->
  exists seen', line_phase fp lines (seq i n) seen hits =
    (seen', hits ++ flat_map (fun j => opt_list (first_match fp lines j)) (seq i n))
    /\ Inv seen' (hits ++ flat_map (fun j => opt_list (first_match fp lines j)) (seq i n)).
Proof.
  induction n as [|n IH]; intros i seen hits HL.
  - exists seen. cbn. rewrite app_nil_r. split; [reflexivity|apply HL].
  - cbn [seq line_phase flat_map].
    rewrite (try_matchers_spec fp lines i keywordMatchers seen hits matchers_labels HL).
    change (first_match fp lines i) with (pick fp lines i keywordMatchers).
    destruct (pick fp lines i keywordMatchers) as [h|] eqn:Ep.
    + destruct (pick_some _ _ _ _ _ Ep) as (l & t & Hin & ->).
      destruct (matchers_labels _ _ Hin) as [Hml Hcl].
      destruct HL as (HI & Hc & Hl).
      destruct (IH (S i) (hit_key {| filePath := fp; line := i + 1; matchLabel := l;
                                     snippet := line_snippet lines i |} :: seen)
                  (hits ++ [{| filePath := fp; line := i + 1; matchLabel := l;
                               snippet := line_snippet lines i |}])) as (s' & E' & I').
      { split; [|split].
        - apply Inv_push; [exact HI|]. apply (fresh_key i seen); [split; auto|auto|auto].
        - intros h Hh. apply in_app_iff in Hh as [Hh|[<-|[]]]; [auto|exact Hcl].
        - intros h Hh Hm. apply in_app_iff in Hh as [Hh|[<-|[]]].
          + specialize (Hl h Hh Hm). lia.
          + simpl. lia. }
      exists s'. rewrite <- app_assoc in E', I'. split; [exact E'|exact I'].
    + destruct HL as (HI & Hc & Hl).
      destruct (IH (S i) seen hits) as (s' & E' & I').
      { split; [exact HI|split; [exact Hc|]]. intros h Hh Hm. specialize (Hl h Hh Hm). lia. }
      exists s'. split; assumption.
Qed.

(** The scan is the de-duplicated block matches followed by the line hits. *)
Lemma scan_decompose text fp :
  scanTextForPromptKeywords text fp =
    emit_all (block_candidates fp (list_ascii_of_string text)) [] ++
    line_hits fp (split_lines text)
  /\ NoDup (map hit_key (scanTextForPromptKeywords text fp)).
Proof.
  unfold scanTextForPromptKeywords.
  destruct (block_phase_spec fp (list_ascii_of_string text) blockPatterns [] [] Inv_nil)
    as (s1 & E1 & I1).
  rewrite E1. fold (block_candidates fp (list_ascii_of_string text)) in *.
  set (bh := emit_all (block_candidates fp (list_ascii_of_string text)) []) in *.
  assert (HL : LInv 0 s1 bh).
  { split; [exact I1|split].
    - intros h Hh. apply emit_all_in in Hh as [Hh|[]].
      apply block_candidates_in in Hh as (bp & x & Hbp & ->).
      apply (blockPatterns_labels _ Hbp).
    - intros h Hh Hm. apply emit_all_in in Hh as [Hh|[]].
      apply block_candidates_in in Hh as (bp & x & Hbp & ->).
      destruct (blockPatterns_labels _ Hbp) as [Hf _]. simpl in Hm. congruence. }
  destruct (line_phase_spec fp (split_lines text) (length (split_lines text)) 0 s1 bh HL)
    as (s2 & E2 & I2).
  rewrite E2. split; [reflexivity|]. apply I2.
Qed.

Lemma filter_none {A} (f : A -> bool) l : (forall x, In x l -> f x = false) -> filter f l = [].
Proof.
  induction l as [|x l IH]; intros H; [reflexivity|]. simpl.
  rewrite (H x (or_introl eq_refl)). apply IH. intros y Hy. apply H. now right.
Qed.

Lemma line_hits_other fp lines i l : (forall j, In j l -> j <> i) ->
  filter (line_label_at i) (flat_map (fun j => opt_list (first_match fp lines j)) l) = [].
Proof.
  intros H. apply filter_none. intros h Hh. apply in_flat_map in Hh as (j & Hj & Hh).
  unfold first_match in Hh. destruct (pick fp lines j keywordMatchers) eqn:Ep;
    [|destruct Hh].
  destruct Hh as [<-|[]]. apply pick_some in Ep as (l' & t & _ & ->).
  unfold line_label_at. simpl. specialize (H j Hj).
  destruct (Nat.eqb_spec (j + 1) (i + 1)); [lia|reflexivity].
Qed.

Lemma collapse_head l :
  forall c l', collapse_ws l true = c :: l' -> is_space c = false.
Proof.
  induction l as [|d l IH]; intros c l' E; [discriminate|]. simpl in E.
  destruct (is_space d) eqn:Ed; [exact (IH _ _ E)|]. injection E as <- _. exact Ed.
Qed.

Lemma collapse_chars l : forall b c, In c (collapse_ws l b) -> is_space c = true -> c = " "%char.
Proof.
  induction l as [|d l IH]; intros b c H Hs; [destruct H|]. simpl in H.
  destruct (is_space d) eqn:Ed.
  - destruct b; [exact (IH _ _ H Hs)|]. destruct H as [<-|H]; [reflexivity|exact (IH _ _ H Hs)].
  - destruct H as [<-|H]; [congruence|exact (IH _ _ H Hs)].
Qed.

Lemma adj_cons c r : adj_ok r ->
  (forall d r', r = d :: r' -> is_space c = false \/ is_space d = false) -> adj_ok (c :: r).
Proof.
  intros Hr Hh [|c' x] y a b E; simpl in E; injection E as E1 E2.
  - subst. exact (Hh b y eq_refl).
  - exact (Hr x y a b E2).
Qed.

Lemma collapse_adj l : forall b, adj_ok (collapse_ws l b).
Proof.
  induction l as [|d l IH]; intros b.
  - intros [|? ?] ? ? ? E; discriminate.
  - simpl. destruct (is_space d) eqn:Ed; [destruct b; [apply IH|]|].
    + apply adj_cons; [apply IH|]. intros d' r' E. right. exact (collapse_head _ _ _ E).
    + apply adj_cons; [apply IH|]. intros. now left.
Qed.

Lemma drop_ws_suffix l : exists p, l = p ++ drop_ws l.
Proof.
  induction l as [|c l IH]; [exists []; reflexivity|]. simpl.
  destruct (is_space c); [|exists []; reflexivity].
  destruct IH as [p Hp]. exists (c :: p). simpl. now f_equal.
Qed.

Lemma drop_ws_head l c l' : drop_ws l = c :: l' -> is_space c = false.
Proof.
  induction l as [|d l IH]; [discriminate|]. simpl.
  destruct (is_space d) eqn:Ed; [exact IH|]. intros E. injection E as <- _. exact Ed.
Qed.

Lemma drop_ws_snoc l c : is_space c = false -> drop_ws (l ++ [c]) = drop_ws l ++ [c].
Proof.
  intros Hc. induction l as [|d l IH]; simpl; [now rewrite Hc|].
  destruct (is_space d); [exact IH|reflexivity].
Qed.

Lemma chars_sub (l m : list ascii) : (forall c, In c m -> In c l) ->
  (forall c, In c l -> is_space c = true -> c = " "%char) ->
  (forall c, In c m -> is_space c = true -> c = " "%char).
Proof. intros Hs H c Hc. apply H, Hs, Hc. Qed.

Lemma adj_drop l : adj_ok l -> adj_ok (drop_ws l).
Proof.
  intros H x y a b E. destruct (drop_ws_suffix l) as [p Hp].
  apply (H (p ++ x) y). rewrite Hp, E. now rewrite app_assoc.
Qed.

Lemma adj_rev l : adj_ok l -> adj_ok (rev l).
Proof.
  intros H x y a b E. apply (f_equal (@rev ascii)) in E.
  rewrite rev_involutive, rev_app_distr in E. simpl in E.
  rewrite <- !app_assoc in E. simpl in E.
  destruct (H (rev y) (rev x) b a E); auto.
Qed.

Lemma normalizeWhitespace_normal v :
  ws_normal (list_ascii_of_string (normalizeWhitespace v)).
Proof.
  unfold normalizeWhitespace, trim_l. rewrite list_ascii_of_string_of_list_ascii.
  set (l := collapse_ws (list_ascii_of_string v) false).
  set (m := drop_ws l).
  assert (Hc : forall c, In c l -> is_space c = true -> c = " "%char)
    by (intros c; apply collapse_chars).
  assert (Hm : forall c, In c m -> In c l).
  { intros c H. destruct (drop_ws_suffix l) as [p ->]. apply in_app_iff. now right. }
  assert (Hr : forall c, In c (rev (drop_ws (rev m))) -> In c l).
  { intros c H. apply Hm. rewrite <- in_rev in H.
    destruct (drop_ws_suffix (rev m)) as [p Hp]. rewrite in_rev, Hp, in_app_iff. now right. }
  split; [|split; [|split]].
  - exact (chars_sub _ _ Hr Hc).
  - apply adj_rev, adj_drop, adj_rev, adj_drop, collapse_adj.
  - intros c l' E. destruct m as [|d m'] eqn:Em.
    + simpl in E. discriminate.
    + assert (Hd : is_space d = false) by exact (drop_ws_head _ _ _ Em).
      simpl in E. rewrite drop_ws_snoc in E by exact Hd. rewrite rev_app_distr in E.
      simpl in E. injection E as <- _. exact Hd.
  - intros c l' E. apply (f_equal (@rev ascii)) in E.
    rewrite rev_involutive, rev_app_distr in E. simpl in E.
    exact (drop_ws_head _ _ _ E).
Qed.

(** ** C5 (corrected): de-duplication and the order of the two phases.
    [scanTextForPromptKeywords] returns the block-extractor matches, in
    pattern order, each dropped exactly when a hit with the same
    (label, line, first 50 characters of snippet) key was already emitted,
    followed by the line-heuristic hits, which are computed as if nothing
    had been seen: block hits never suppress a line hit. No two returned
    hits share a key. *)
Theorem scanTextForPromptKeywords_dedup text fp :
  scanTextForPromptKeywords text fp =
    emit_all (block_candidates fp (list_ascii_of_string text)) [] ++
    line_hits fp (split_lines text)
  /\ NoDup (map hit_key (scanTextForPromptKeywords text fp)).
Proof. exact (scan_decompose text fp). Qed.

(** C5, counterexample: on one line, a block extractor and a line
    heuristic both fire on the same span and both hits are returned; the
    block hit does not take priority over the line hit. *)
Lemma block_hit_does_not_suppress_line_hit_cex :
  scanTextForPromptKeywords "const x = { role: 'system', content: `Be nice` }" "f" =
    [ {| filePath := "f"; line := 1;
         matchLabel := "js_ts_role_system_then_content_template"; snippet := "Be nice" |};
      {| filePath := "f"; line := 1; matchLabel := "role_system";
         snippet := "const x = { role: 'system', content: `Be nice` }" |} ].
Proof. vm_compute. reflexivity. Qed.

(** ** C6: the line heuristics give at most one hit per line.
    For each line [i] (0-based) of the text, the hits carrying a
    line-heuristic label and line number [i + 1] are exactly the hit of the
    first predicate of [keywordMatchers], in declaration order, that
    matches the line, or none; its snippet is the previous, current and
    next line joined and passed through [normalizeWhitespace], whose result
    has single spaces as its only whitespace and none at either end. *)
Theorem line_heuristics_first_match text fp i :
  i < length (split_lines text) ->
  filter (line_label_at i) (scanTextForPromptKeywords text fp) =
    match find (fun lt => snd lt (nth i (split_lines text) "")) keywordMatchers with
    | Some (lbl, _) =>
        [{| filePath := fp; line := i + 1; matchLabel := lbl;
            snippet := line_snippet (split_lines text) i |}]
    | None => []
    end
  /\ ws_normal (list_ascii_of_string (line_snippet (split_lines text) i)).
Proof.
  intros Hi. split; [|apply normalizeWhitespace_normal].
  rewrite (proj1 (scan_decompose text fp)), filter_app.
  rewrite filter_none.
  2:{ intros h Hh. apply emit_all_in in Hh as [Hh|[]].
      apply block_candidates_in in Hh as (bp & x & Hbp & ->).
      unfold line_label_at. cbn [matchLabel cand].
      rewrite (proj1 (blockPatterns_labels _ Hbp)). apply andb_false_r. }
  rewrite app_nil_l. unfold line_hits.
  set (lines := split_lines text) in *.
  replace (length lines) with (i + S (length lines - S i)) by lia.
  rewrite seq_app, flat_map_app, filter_app.
  rewrite line_hits_other by (intros j Hj; apply in_seq in Hj; lia).
  rewrite app_nil_l.
  change (seq (0 + i) (S (length lines - S i))) with (i :: seq (S i) (length lines - S i)).
  cbn [flat_map]. rewrite filter_app.
  rewrite (line_hits_other fp lines i) by (intros j Hj; apply in_seq in Hj; lia).
  rewrite app_nil_r.
  unfold first_match, pick.
  destruct (find (fun lt => snd lt (nth i lines "")) keywordMatchers) as [[l t]|] eqn:E;
    [|reflexivity].
  apply find_some in E as [E _]. destruct (matchers_labels _ _ E) as [Hm _].
  cbn [opt_list filter]. unfold line_label_at. cbn [line matchLabel].
  rewrite Nat.eqb_refl, Hm. reflexivity.
Qed.

(** Witness for C6: the second line of a three-line text. *)
Lemma line_heuristics_first_match_witness :
  1 < length (split_lines "a
const role = 'system'
b") /\
  filter (line_label_at 1) (scanTextForPromptKeywords "a
const role = 'system'
b" "f") =
    [{| filePath := "f"; line := 2; matchLabel := "role_system";
        snippet := "a const role = 'system' b" |}].
Proof.
  split; [vm_compute; lia|].
  destruct (line_heuristics_first_match "a
const role = 'system'
b" "f" 1) as [H _]; [vm_compute; lia|].
  rewrite H. vm_compute. reflexivity.
Defined.

(** ** C8 (code bug): a block extractor emits an empty snippet.
    Every returned hit has a line number of at least 1, but on the text
    [system: ``] the template-literal extractor returns a hit whose snippet
    is the empty string, although the structural extractor's visitor drops
    empty strings ([if text:]). *)
Theorem empty_block_snippet :
  (forall text fp h, In h (scanTextForPromptKeywords text fp) -> 1 <= line h) /\
  scanTextForPromptKeywords "system: ``" "f" =
    [{| filePath := "f"; line := 1; matchLabel := "js_ts_system_template_literal";
        snippet := "" |}].
Proof.
  split; [|vm_compute; reflexivity].
  intros text fp h Hh. rewrite (proj1 (scan_decompose text fp)) in Hh.
  apply in_app_iff in Hh as [Hh|Hh].
  - apply emit_all_in in Hh as [Hh|[]].
    apply block_candidates_in in Hh as (bp & x & _ & ->).
    simpl. unfold lineNumberAtIndex. destruct (fst x <=? 0); lia.
  - apply in_flat_map in Hh as (j & _ & Hh). unfold first_match in Hh.
    destruct (pick (fp) (split_lines text) j keywordMatchers) eqn:Ep; [|destruct Hh].
    destruct Hh as [<-|[]]. apply pick_some in Ep as (l & t & _ & ->). simpl. lia.
Qed.

End KeywordsFacts.

(** ** Structural extractor *)

Module PyExtractFacts.
Import PyExtract.

(** Induction over [expr] through its lists of children. *)
Section ExprInd.
Variable P : expr -> Prop.
Hypothesis HName : forall id, P (Name id).
Hypothesis HAttribute : forall v a, P v -> P (Attribute v a).
Hypothesis HConstant : forall c, P (Constant c).
Hypothesis HJoinedStr : forall vs, Forall P vs -> P (JoinedStr vs).
Hypothesis HFormattedValue : forall v, P v -> P (FormattedValue v).
Hypothesis HCall : forall f args kws n, P f -> Forall P args ->
  Forall (fun kv => P (snd kv)) kws -> P (Call f args kws n).
Hypothesis HDict : forall ks vs,
  Forall (fun k => match k with Some x => P x | None => True end) ks -> Forall P vs ->
  P (Dict ks vs).
Hypothesis HList : forall es, Forall P es -> P (List es).
Hypothesis HOther : forall es, Forall P es -> P (OtherExpr es).

Fixpoint expr_ind' (e : expr) : P e :=
  let fix all (l : list expr) : Forall P l :=
    match l with [] => Forall_nil _ | x :: l' => Forall_cons x (expr_ind' x) (all l') end in
  match e with
  | Name id => HName id
  | Attribute v a => HAttribute v a (expr_ind' v)
  | Constant c => HConstant c
  | JoinedStr vs => HJoinedStr vs (all vs)
  | FormattedValue v => HFormattedValue v (expr_ind' v)
  | Call f args kws n =>
      HCall f args kws n (expr_ind' f) (all args)
        ((fix allk (l : list (option string * expr)) : Forall (fun kv => P (snd kv)) l :=
            match l with
            | [] => Forall_nil _
            | (k, x) :: l' => Forall_cons (k, x) (expr_ind' x) (allk l')
            end) kws)
  | Dict ks vs =>
      HDict ks vs
        ((fix allo (l : list (option expr))
            : Forall (fun k => match k with Some x => P x | None => True end) l :=
            match l with
            | [] => Forall_nil _
            | Some x :: l' => Forall_cons (Some x) (expr_ind' x) (allo l')
            | None :: l' => Forall_cons None I (allo l')
            end) ks)
        (all vs)
  | List es => HList es (all es)
  | OtherExpr es => HOther es (all es)
  end.
End ExprInd.









End PyExtractFacts.

(** ** File listing and file tree *)

Module WalkFacts.
Import Walk.

(** Induction over [node] through the children of directories. *)
Section NodeInd.
Variable P : node -> Prop.
Hypothesis HFile : forall nm size content, P (File nm size content).
Hypothesis HDir : forall nm r children, Forall P children -> P (Dir nm r children).
Hypothesis HOther : forall nm, P (Other nm).

Fixpoint node_ind' (n : node) : P n :=
  match n with
  | File nm size content => HFile nm size content
  | Dir nm r children =>
      HDir nm r children
        ((fix all (l : list node) : Forall P l :=
            match l with [] => Forall_nil _ | x :: l' => Forall_cons x (node_ind' x) (all l') end)
           children)
  | Other nm => HOther nm
  end.
End NodeInd.

Lemma walk_files_bound maxFiles n : forall dir out out',
  length out <= maxFiles -> walk_files maxFiles dir n out = Some out' ->
  length out' <= maxFiles.
Proof.
  induction n as [nm size content|nm r children Hch|nm] using node_ind';
    intros dir out out' Hout E; cbn [walk_files] in E; try discriminate.
  destruct r; [|discriminate]. cbn [negb] in E.
  revert out Hout E. induction Hch as [|e es He Hes IH]; intros out Hout E.
  - injection E as <-. exact Hout.
  - destruct (Nat.leb_spec maxFiles (length out)) as [Hle|Hlt].
    + injection E as <-. exact Hout.
    + destruct (ignored (name_of e)); [exact (IH _ Hout E)|].
      destruct e as [nm' sz ct|nm' r' ch'|nm'].
      * apply (IH (out ++ [join dir (name_of (File nm' sz ct))])); [|exact E].
        rewrite length_app. simpl. lia.
      * destruct (walk_files maxFiles (join dir (name_of (Dir nm' r' ch'))) (Dir nm' r' ch') out)
          as [out1|] eqn:E1; [|discriminate].
        exact (IH out1 (He _ _ _ Hout E1) E).
      * exact (IH _ Hout E).
Qed.

(** ** C2 (code bug): the two budgets.
    The flat list of [listAllFiles] never has more than [maxFiles]
    entries.  [buildFileTree] does not respect [maxNodes]: a directory is
    counted after its subtree has been walked, so with [maxNodes = 1] the
    tree of [/r] holding a directory [a] with one file has two non-root
    nodes. *)
Theorem file_budgets (localeCompare : string -> string -> comparison) :
  (forall root tree maxFiles out,
     listAllFiles root tree maxFiles = Some out -> length out <= maxFiles)
  /\ descendants (buildFileTree localeCompare "/r"
                    (Dir "r" true [Dir "a" true [File "f.py" 1 "x"]]) 8 1) = 2.
Proof.
  split; [|reflexivity].
  intros root tree maxFiles out E. exact (walk_files_bound maxFiles tree root [] out (Nat.le_0_l _) E).
Qed.

End WalkFacts.

(** ** The scan run *)

Module ScanFacts.
Import Str Walk Scan.

(** The root directory without its children named [k]. *)
Definition drop_child (k : string) (n : node) : node :=
  match n with
  | Dir d r ch => Dir d r (filter (fun c => negb (String.eqb (name_of c) k)) ch)
  | _ => n
  end.

(** The child named [k] of a directory. *)
Definition child (k : string) (n : node) : option node :=
  match n with
  | Dir _ _ ch => find (fun c => String.eqb (name_of c) k) ch
  | _ => None
  end.

(** What one scanned file, given by its path and content, contributes. *)
Definition file_secrets (fc : string * string) : list Secrets.SecretFinding :=
  firstn 5 (Secrets.scanTextForSecrets (snd fc) (fst fc)).

Definition file_hits (fc : string * string) : list Keywords.PromptKeywordHit :=
  firstn 10 (Keywords.scanTextForPromptKeywords (snd fc) (fst fc)).

Lemma filter_replace k d' l : name_of d' = k ->
  filter (fun c => negb (String.eqb (name_of c) k))
    (map (fun c => if String.eqb (name_of c) k then d' else c) l) =
  filter (fun c => negb (String.eqb (name_of c) k)) l.
Proof.
  intros H. induction l as [|c l IH]; [reflexivity|]. cbn [map filter].
  destruct (String.eqb (name_of c) k) eqn:E; cbn [negb].
  - rewrite H, String.eqb_refl. exact IH.
  - rewrite E. cbn [negb]. now f_equal.
Qed.

Lemma find_replace k d' l x : name_of d' = k ->
  find (fun c => String.eqb (name_of c) k) l = Some x ->
  find (fun c => String.eqb (name_of c) k)
    (map (fun c => if String.eqb (name_of c) k then d' else c) l) = Some d'.
Proof.
  intros H. induction l as [|c l IH]; [discriminate|]. cbn [map find].
  destruct (String.eqb (name_of c) k) eqn:E.
  - rewrite H, String.eqb_refl. reflexivity.
  - rewrite E. exact IH.
Qed.

Lemma find_snoc_none {A} (f : A -> bool) l y :
  find f l = None -> find f (l ++ [y]) = if f y then Some y else None.
Proof.
  induction l as [|c l IH]; intros H; [reflexivity|]. cbn [find app] in *.
  destruct (f c); [discriminate|exact (IH H)].
Qed.

Lemma filter_snoc_out {A} (f : A -> bool) l y : f y = false -> filter f (l ++ [y]) = filter f l.
Proof. intros H. rewrite filter_app. cbn [filter]. rewrite H. apply app_nil_r. Qed.

Lemma write_in_tmp_spec d d' : write_in_tmp d = Some d' ->
  name_of d' = name_of d /\ drop_child script_name d' = drop_child script_name d /\
  child script_name d' = Some script_file.
Proof.
  destruct d as [nm sz ct|nm r ch|nm]; try discriminate. unfold write_in_tmp.
  destruct (find (fun c => String.eqb (name_of c) script_name) ch) as [[n1 s1 c1|n1 r1 ch1|n1]|]
    eqn:Ef; try discriminate; intros E; injection E as <-.
  - split; [reflexivity|split].
    + cbn [drop_child]. f_equal. apply filter_replace. reflexivity.
    + cbn [child]. exact (find_replace script_name script_file _ _ eq_refl Ef).
  - split; [reflexivity|split].
    + cbn [drop_child]. f_equal. apply filter_snoc_out. reflexivity.
    + cbn [child]. rewrite (find_snoc_none _ _ _ Ef). reflexivity.
Qed.

Lemma fst_extract pp root proc :
  fst (extractPythonPrompts pp root proc) = fst (ensurePythonScript root).
Proof.
  unfold extractPythonPrompts. destruct (ensurePythonScript root) as [r ok].
  destruct ok; [|reflexivity]. cbn [negb].
  destruct (exit_code proc) as [[|p|p]|]; reflexivity.
Qed.

Lemma fst_scan_run lc pp jp ats useModel targetDir fs0 proc apiKey server :
  fst (scan_run lc pp jp ats useModel targetDir fs0 proc apiKey server) =
  fst (ensurePythonScript fs0).
Proof.
  unfold scan_run. rewrite <- (fst_extract pp fs0 proc).
  destruct (extractPythonPrompts pp fs0 proc) as [fs1 ex].
  destruct (listAllFiles targetDir fs1 3000);
    [destruct (scan_files targetDir fs1 l [] [])|]; reflexivity.
Qed.

Lemma scan_files_spec root tree files : forall sf ph, length sf <= 200 ->
  exists scanned,
    scan_files root tree files sf ph =
      (sf ++ flat_map file_secrets scanned, ph ++ flat_map file_hits scanned) /\
    (forall fc, In fc scanned -> exists nm sz, resolve root tree (fst fc) = Some (File nm sz (snd fc)))
    /\ length (sf ++ flat_map file_secrets scanned) <= 205.
Proof.
  induction files as [|file files IH]; intros sf ph Hsf.
  - exists []. cbn. rewrite !app_nil_r. repeat split; [contradiction|lia].
  - cbn [scan_files].
    destruct (includes (lower_string file) "prisma"); [exact (IH sf ph Hsf)|].
    destruct (resolve root tree file) as [[nm sz ct| |]|] eqn:Er; try exact (IH sf ph Hsf).
    destruct (1024 * 1024 <? sz); [exact (IH sf ph Hsf)|].
    assert (H5 : length (file_secrets (file, ct)) <= 5) by apply firstn_le_length.
    destruct (Nat.ltb_spec 200 (length (sf ++ firstn 5 (Secrets.scanTextForSecrets ct file))))
      as [Hgt|Hle].
    + exists [(file, ct)]. cbn [flat_map]. rewrite !app_nil_r.
      split; [reflexivity|split].
      * intros fc [<-|[]]. exists nm, sz. exact Er.
      * rewrite length_app. lia.
    + destruct (IH _ (ph ++ firstn 10 (Keywords.scanTextForPromptKeywords ct file)) Hle)
        as (sc & E & Hin & Hlen).
      exists ((file, ct) :: sc). cbn [flat_map]. rewrite E, <- !app_assoc.
      split; [reflexivity|split].
      * intros fc [<-|H]; [exists nm, sz; exact Er|exact (Hin fc H)].
      * rewrite <- app_assoc in Hlen. exact Hlen.
Qed.

Lemma map_replace_none k d' l : find (fun c => String.eqb (name_of c) k) l = None ->
  map (fun c => if String.eqb (name_of c) k then d' else c) l = l.
Proof.
  induction l as [|c l IH]; [reflexivity|]. cbn [map find].
  destruct (String.eqb (name_of c) k); [discriminate|]. intros H. f_equal. exact (IH H).
Qed.

(** ** C1 (corrected): what a scan run writes.
    When the target directory has no [.tmp-extractor] entry before the
    run, the filesystem after the run is the one before with one more
    child of the target directory: the directory [.tmp-extractor] holding
    only the extractor script [python_prompt_extractor.py].  Every other
    file and directory under the target directory is unchanged. *)
Theorem scan_frame lc pp jp ats useModel targetDir fs0 proc apiKey server
  (Hfresh : child tmp_name fs0 = None) :
  fst (scan_run lc pp jp ats useModel targetDir fs0 proc apiKey server) =
  match fs0 with
  | Dir nm r ch => Dir nm r (ch ++ [Dir tmp_name true [script_file]])
  | _ => fs0
  end.
Proof.
  rewrite fst_scan_run. unfold ensurePythonScript, mkdir_tmp.
  destruct fs0 as [nm sz ct|nm r ch|nm]; try reflexivity.
  cbn [child] in Hfresh. rewrite Hfresh. unfold write_script.
  rewrite (find_snoc_none _ _ _ Hfresh). cbn [name_of]. rewrite String.eqb_refl.
  change (write_in_tmp (Dir tmp_name true [])) with (Some (Dir tmp_name true [script_file])).
  cbn [fst]. rewrite map_app. cbn [map name_of]. rewrite String.eqb_refl.
  rewrite (map_replace_none _ _ _ Hfresh). reflexivity.
Qed.

(** Witness for C1: a target directory holding one Python file. *)
Lemma scan_frame_witness :
  child tmp_name (Dir "repo" true [File "app.py" 5 "x = 1"]) = None /\
  fst (scan_run (fun _ _ => Eq) (fun _ => Some []) (fun _ => None) (fun _ => "")
                false "/repo" (Dir "repo" true [File "app.py" 5 "x = 1"])
                {| exit_code := Some 0%Z; stdout := "[]" |} None (fun _ => None)) =
  Dir "repo" true [File "app.py" 5 "x = 1"; Dir tmp_name true [script_file]].
Proof.
  assert (H : child tmp_name (Dir "repo" true [File "app.py" 5 "x = 1"]) = None)
    by reflexivity.
  split; [exact H|].
  exact (scan_frame (fun _ _ => Eq) (fun _ => Some []) (fun _ => None) (fun _ => "")
                    false "/repo" (Dir "repo" true [File "app.py" 5 "x = 1"])
                    {| exit_code := Some 0%Z; stdout := "[]" |} None (fun _ => None) H).
Defined.

(** C1, counterexample: a run over a directory holding one Python file
    creates [.tmp-extractor/python_prompt_extractor.py] under it. *)
Lemma scan_writes_script_cex :
  let fs0 := Dir "repo" true [File "app.py" 5 "x = 1"] in
  let fs1 := fst (scan_run (fun _ _ => Eq) (fun _ => Some []) (fun _ => None) (fun _ => "")
                           false "/repo" fs0 {| exit_code := Some 0%Z; stdout := "[]" |}
                           None (fun _ => None)) in
  resolve "/repo" fs0 "/repo/.tmp-extractor/python_prompt_extractor.py" = None /\
  resolve "/repo" fs1 "/repo/.tmp-extractor/python_prompt_extractor.py" = Some script_file.
Proof. split; vm_compute; reflexivity. Qed.

(** ** C3 (corrected): a failing extractor.
    When the extractor process does not exit with code 0, or its output
    does not parse, [extractPythonPrompts] rejects (here: [None]); [POST]
    catches the rejection and the run's result has no structural
    artifacts. *)
Theorem extractor_failure_caught lc pp jp ats useModel targetDir fs0 proc apiKey server :
  exit_code proc <> Some 0%Z \/ pp (stdout proc) = None ->
  snd (extractPythonPrompts pp fs0 proc) = None /\
  python (snd (scan_run lc pp jp ats useModel targetDir fs0 proc apiKey server)) = [].
Proof.
  intros H.
  assert (Hn : snd (extractPythonPrompts pp fs0 proc) = None).
  { unfold extractPythonPrompts. destruct (ensurePythonScript fs0) as [r ok].
    destruct ok; [|reflexivity]. cbn [negb].
    destruct (exit_code proc) as [[|p|p]|] eqn:Ec; try reflexivity.
    destruct H as [H|H]; [contradiction|exact H]. }
  split; [exact Hn|]. unfold scan_run.
  destruct (extractPythonPrompts pp fs0 proc) as [fs1 ex]. cbn [snd] in Hn. subst ex.
  destruct (listAllFiles targetDir fs1 3000);
    [destruct (scan_files targetDir fs1 l [] [])|]; reflexivity.
Qed.

(** C3, counterexample: with exit code 1, [extractPythonPrompts] does not
    yield an empty list: it rejects. *)
Lemma extractor_rejects_cex :
  snd (extractPythonPrompts (fun _ => Some []) (Dir "repo" true [])
         {| exit_code := Some 1%Z; stdout := "[]" |}) = None.
Proof. vm_compute. reflexivity. Qed.

(** Witness for C3. *)
Lemma extractor_failure_caught_witness :
  snd (extractPythonPrompts (fun _ => Some []) (Dir "repo" true [])
         {| exit_code := Some 1%Z; stdout := "[]" |}) = None /\
  python (snd (scan_run (fun _ _ => Eq) (fun _ => Some []) (fun _ => None) (fun _ => "")
                        false "/repo" (Dir "repo" true [])
                        {| exit_code := Some 1%Z; stdout := "[]" |} None (fun _ => None))) = [].
Proof. apply extractor_failure_caught. left. discriminate. Defined.

(** A repository of 41 files, each holding five OpenAI-style keys. *)
Definition five_keys : string :=
  "sk-AAAAAAAAAAAAAAAAAAAA sk-BBBBBBBBBBBBBBBBBBBB sk-CCCCCCCCCCCCCCCCCCCC sk-DDDDDDDDDDDDDDDDDDDD sk-EEEEEEEEEEEEEEEEEEEE".

Definition many_keys_repo : node :=
  Dir "repo" true (map (fun i => File ("k" ++ show_nat i) 120 five_keys) (seq 0 41)).

(** ** C10: the per-file and overall caps of [POST].
    In every run, the secret findings and keyword hits are the
    concatenation, over the scanned files (whose contents are read from
    the filesystem), of at most 5 secret findings and at most 10 keyword
    hits per file, and there are at most 205 secret findings; and the
    overall cap is checked after a file's findings are appended, so a run
    over 41 files of five keys each returns 205 findings. *)
Theorem scan_caps :
  (forall lc pp jp ats useModel targetDir fs0 proc apiKey server,
     let run := scan_run lc pp jp ats useModel targetDir fs0 proc apiKey server in
     exists scanned,
       secrets (snd run) = flat_map file_secrets scanned /\
       keywords (snd run) = flat_map file_hits scanned /\
       (forall fc, In fc scanned ->
          (exists nm sz, resolve targetDir (fst run) (fst fc) = Some (File nm sz (snd fc))) /\
          length (file_secrets fc) <= 5 /\ length (file_hits fc) <= 10) /\
       length (secrets (snd run)) <= 205)
  /\ length (secrets (snd (scan_run (fun _ _ => Eq) (fun _ => Some []) (fun _ => None)
                              (fun _ => "") false "/repo" many_keys_repo
                              {| exit_code := Some 0%Z; stdout := "[]" |} None
                              (fun _ => None)))) = 205.
Proof.
  split; [|vm_compute; reflexivity].
  intros lc pp jp ats useModel targetDir fs0 proc apiKey server. cbv zeta.
  rewrite (fst_scan_run lc pp jp ats useModel targetDir fs0 proc apiKey server).
  unfold scan_run. rewrite <- (fst_extract pp fs0 proc).
  destruct (extractPythonPrompts pp fs0 proc) as [fs1 ex]. cbn [fst].
  destruct (listAllFiles targetDir fs1 3000) as [files|].
  - destruct (scan_files_spec targetDir fs1 files [] [] (Nat.le_0_l _)) as (sc & E & Hin & Hlen).
    rewrite E. exists sc. cbn [secrets keywords snd].
    split; [reflexivity|split; [reflexivity|split; [|exact Hlen]]].
    intros fc Hfc. split; [exact (Hin fc Hfc)|split; apply firstn_le_length].
  - exists []. split; [reflexivity|split; [reflexivity|split; [intros fc []|cbn; lia]]].
Qed.

End ScanFacts.

(** ** Narrative synthesis *)

Module NarrativeFacts.
Import Str Narrative.

(** [data?.choices?.[0]?.message?.content] *)
Definition reply_content (data : json) : option json :=
  get (get (get0 (get (Some data) "choices")) "message") "content".

(** The text from the first [{] through the last [}] of [s], or [s] when
    either brace is missing. *)
Definition brace_span (s : string) : string :=
  match indexOf s "{"%char, lastIndexOf s "}"%char with
  | Some firstBrace, Some lastBrace =>
      string_of_list_ascii (slice_l (list_ascii_of_string s) firstBrace (lastBrace + 1))
  | _, _ => s
  end.

Lemma parse_reply_string jp ats data s : reply_content data = Some (JStr s) ->
  parse_reply jp ats data =
  if String.eqb s "" then Returned None else
  match jp (brace_span s) with
  | None => Threw
  | Some v =>
      if negb (truthy (get (Some v) "summary")) || negb (is_array (get (Some v) "files"))
      then Returned None else Returned (Some v)
  end.
Proof.
  unfold reply_content, parse_reply. intros H. rewrite H. cbn [truthy].
  destruct (String.eqb s ""); [reflexivity|]. unfold brace_span.
  destruct (indexOf s "{"%char), (lastIndexOf s "}"%char); reflexivity.
Qed.

Lemma parse_reply_some jp ats data v : parse_reply jp ats data = Returned (Some v) ->
  truthy (get (Some v) "summary") = true /\ is_array (get (Some v) "files") = true.
Proof.
  unfold parse_reply. cbv zeta.
  destruct (negb (truthy _)); [discriminate|].
  match goal with |- match ?x with Some _ => _ | None => _ end = _ -> _ => destruct x as [t|] end;
    [|discriminate].
  destruct (jp t) as [p|]; [|discriminate].
  destruct (truthy (get (Some p) "summary")) eqn:E1, (is_array (get (Some p) "files")) eqn:E2;
    intros H; cbn in H; try discriminate. injection H as <-. split; assumption.
Qed.

(** ** C9: [analyzePromptContext] returns [null] rather than throwing.
    Its outcome is never a rejection; with no API key, or an empty one,
    it sends no request and returns [null]; otherwise, when the reply
    content is a string [s], it returns [null] if the span of [s] from the
    first [{] to the last [}] does not parse, or parses to a value without
    a truthy [summary] or whose [files] is not an array, and the parsed
    value when it passes both checks; whatever it returns besides [null]
    has a truthy [summary] and an array [files]. *)
Theorem analyzePromptContext_never_throws jp ats apiKey server hits python fileTree :
  let out := analyzePromptContext jp ats apiKey server hits python fileTree in
  snd out <> Threw
  /\ (match apiKey with None => True | Some k => k = "" end -> out = ([], Returned None))
  /\ (forall req data s, fst out = [req] -> server req = Some data ->
        reply_content data = Some (JStr s) ->
        (jp (brace_span s) = None -> snd out = Returned None)
        /\ (forall v, jp (brace_span s) = Some v ->
              truthy (get (Some v) "summary") = false \/ is_array (get (Some v) "files") = false ->
              snd out = Returned None)
        /\ (forall v, jp (brace_span s) = Some v -> s <> "" ->
              truthy (get (Some v) "summary") = true -> is_array (get (Some v) "files") = true ->
              snd out = Returned (Some v)))
  /\ (forall v, snd out = Returned (Some v) ->
        truthy (get (Some v) "summary") = true /\ is_array (get (Some v) "files") = true).
Proof.
  cbv zeta. unfold analyzePromptContext.
  destruct apiKey as [key|].
  2:{ cbn. split; [discriminate|split; [reflexivity|split; [discriminate|discriminate]]]. }
  destruct (String.eqb_spec key "") as [Hk|Hk].
  { cbn. split; [discriminate|split; [reflexivity|split; [discriminate|discriminate]]]. }
  match goal with |- context [server ?r] => set (req := r) end.
  destruct (server req) as [data|] eqn:Es.
  2:{ cbn. split; [discriminate|split; [intros; contradiction|split; [|discriminate]]].
      intros req' data s E. injection E as <-. congruence. }
  destruct (parse_reply jp ats data) as [r|] eqn:Ep; cbn [fst snd].
  - split; [discriminate|split; [intros; contradiction|split]].
    + intros req' data' s E Es' Hc. injection E as <-. rewrite Es in Es'.
      injection Es' as <-. rewrite (parse_reply_string jp ats data s Hc) in Ep.
      destruct (String.eqb_spec s "") as [Hs|Hs].
      * injection Ep as <-. split; [intros; reflexivity|split; [intros; reflexivity|]].
        intros; contradiction.
      * split; [|split].
        -- intros Hn. rewrite Hn in Ep. discriminate.
        -- intros v Hv Hf. rewrite Hv in Ep. destruct Hf as [Hf|Hf]; rewrite Hf in Ep;
             [|rewrite orb_true_r in Ep]; injection Ep as <-; reflexivity.
        -- intros v Hv _ H1 H2. rewrite Hv, H1, H2 in Ep. injection Ep as <-. reflexivity.
    + intros v E. injection E as ->. exact (parse_reply_some _ _ _ _ Ep).
  - split; [discriminate|split; [intros; contradiction|split; [|discriminate]]].
    intros req' data' s E Es' Hc. injection E as <-. rewrite Es in Es'.
    injection Es' as <-. rewrite (parse_reply_string jp ats data s Hc) in Ep.
    destruct (String.eqb s ""); [discriminate|].
    split; [intros; reflexivity|split; [intros; reflexivity|]].
    intros v Hv _ H1 H2. rewrite Hv, H1, H2 in Ep. discriminate.
Qed.

End NarrativeFacts.

(** ** Further properties of the code

    List facts shared by the proofs below. *)

Module ListFacts.

Lemma in_firstn_in {A} (x : A) n l : In x (firstn n l) -> In x l.
Proof. intros H. rewrite <- (firstn_skipn n l). apply in_app_iff. left; exact H. Qed.

Lemma firstn_firstn_app {A} m (a b : list A) : firstn m (firstn m a ++ b) = firstn m (a ++ b).
Proof.
  destruct (Nat.le_gt_cases (length a) m) as [H|H].
  - rewrite (firstn_all2 a H). reflexivity.
  - rewrite !firstn_app, length_firstn, firstn_firstn.
    replace (m - Nat.min m (length a)) with 0 by lia. replace (m - length a) with 0 by lia.
    rewrite Nat.min_id. reflexivity.
Qed.

Lemma firstn_full {A} m (a b : list A) : m <= length a -> length a <= m -> firstn m (a ++ b) = a.
Proof.
  intros H1 H2. rewrite firstn_app. replace (m - length a) with 0 by lia.
  rewrite app_nil_r. apply firstn_all2. exact H2.
Qed.

End ListFacts.

(** ** The request gate *)

Module ApiFacts.
Import Str Keywords Api ListFacts.

Lemma drop_ws_in c l : In c (drop_ws l) -> In c l.
Proof.
  induction l as [|d l IH]; cbn [drop_ws]; [tauto|].
  destruct (is_space d); [intros H; right; exact (IH H)|tauto].
Qed.

Lemma trim_l_in c l : In c (trim_l l) -> In c l.
Proof.
  unfold trim_l. intros H. apply in_rev in H. apply drop_ws_in in H.
  apply in_rev in H. apply drop_ws_in in H. exact H.
Qed.

Lemma before_no c l : ~ In c (before c l).
Proof.
  induction l as [|d l IH]; cbn [before]; [tauto|].
  destruct (Ascii.eqb_spec d c) as [->|Hne]; [tauto|].
  intros [H|H]; [congruence|exact (IH H)].
Qed.

Lemma realIp_or_local_nonempty h : realIp_or_local h <> "".
Proof.
  unfold realIp_or_local. destruct (h "x-real-ip") as [r|]; [|discriminate].
  destruct (String.eqb_spec r ""); [discriminate|exact n].
Qed.

(** getClientIp never returns the empty string. *)
Theorem getClientIp_nonempty (h : headers) : getClientIp h <> "".
Proof.
  unfold getClientIp. destruct (h "x-forwarded-for") as [xff|]; [|apply realIp_or_local_nonempty].
  destruct (String.eqb xff ""); [apply realIp_or_local_nonempty|].
  cbv zeta. match goal with |- (if String.eqb ?f "" then _ else _) <> _ =>
    destruct (String.eqb_spec f "") as [_|Hne]; [discriminate|exact Hne] end.
Qed.

(** With a non-empty x-forwarded-for header, the key has no comma and
    depends on that header only. *)
Theorem getClientIp_forwarded (h : headers) (xff : string)
  (Hx : h "x-forwarded-for" = Some xff) (Hne : xff <> "") :
  ~ In ","%char (list_ascii_of_string (getClientIp h)) /\
  (forall h' : headers, h' "x-forwarded-for" = Some xff -> getClientIp h' = getClientIp h).
Proof.
  assert (Hd : String.eqb xff "" = false) by (apply String.eqb_neq; exact Hne).
  split.
  - unfold getClientIp. rewrite Hx, Hd. cbv zeta.
    match goal with |- context [if String.eqb ?f "" then _ else _] =>
      destruct (String.eqb f "") eqn:E end.
    + cbn. intuition discriminate.
    + rewrite list_ascii_of_string_of_list_ascii. intros H.
      apply trim_l_in in H. exact (before_no _ _ H).
  - intros h' Hx'. unfold getClientIp. rewrite Hx, Hx', Hd. reflexivity.
Qed.

Definition ip_headers (xff real : option string) : headers :=
  fun n => if String.eqb n "x-forwarded-for" then xff
           else if String.eqb n "x-real-ip" then real else None.

Lemma getClientIp_forwarded_witness :
  ip_headers (Some " 10.0.0.1 , 10.0.0.2") (Some "9.9.9.9") "x-forwarded-for" = Some " 10.0.0.1 , 10.0.0.2"
  /\ " 10.0.0.1 , 10.0.0.2" <> "" /\
  (~ In ","%char (list_ascii_of_string (getClientIp (ip_headers (Some " 10.0.0.1 , 10.0.0.2") (Some "9.9.9.9")))) /\
  (forall h' : headers, h' "x-forwarded-for" = Some " 10.0.0.1 , 10.0.0.2" ->
     getClientIp h' = getClientIp (ip_headers (Some " 10.0.0.1 , 10.0.0.2") (Some "9.9.9.9")))).
Proof.
  split; [reflexivity|]. split; [discriminate|].
  apply (getClientIp_forwarded _ " 10.0.0.1 , 10.0.0.2"); [reflexivity|discriminate].
Defined.


(** requireJwtFromRequest returns a payload only when the Authorization header starts with Bearer, JWT_SECRET is non-empty and verify accepted the trimmed token. *)
Theorem requireJwt_ok (V : Type) (verify : string -> string -> option V) (h : headers)
  (JWT_SECRET : option string) (p : V)
  (Hok : requireJwtFromRequest V verify h JWT_SECRET = Ok p) :
  exists a secret,
    (h "authorization" = Some a \/ h "Authorization" = Some a) /\
    prefixb (list_ascii_of_string "Bearer ") (list_ascii_of_string a) = true /\
    JWT_SECRET = Some secret /\ secret <> "" /\
    verify (string_of_list_ascii (trim_l (skipn 7 (list_ascii_of_string a)))) secret = Some p.
Proof.
  unfold requireJwtFromRequest in Hok.
  set (auth := match h "authorization" with
               | Some a => if String.eqb a "" then h "Authorization" else Some a
               | None => h "Authorization" end) in Hok.
  assert (Ha : forall a, auth = Some a -> h "authorization" = Some a \/ h "Authorization" = Some a).
  { intros a. unfold auth. destruct (h "authorization") as [a'|]; [|tauto].
    destruct (String.eqb a' ""); [tauto|]. intros E; left; exact E. }
  destruct auth as [a|] eqn:Eauth; [|discriminate].
  destruct (String.eqb a "" || negb (prefixb (list_ascii_of_string "Bearer ") (list_ascii_of_string a)))
    eqn:Eb; [discriminate|].
  apply orb_false_iff in Eb as [_ Eb]. apply negb_false_iff in Eb.
  destruct JWT_SECRET as [secret|]; [|discriminate].
  destruct (String.eqb_spec secret "") as [_|Hs]; [discriminate|].
  destruct (verify _ secret) as [p'|] eqn:Ev; [|discriminate].
  injection Hok as <-. exists a, secret. auto.
Qed.

Definition bearer_headers (auth : string) : headers :=
  fun n => if String.eqb n "authorization" then Some auth else None.

Definition verify_demo (token secret : string) : option nat :=
  if String.eqb token "t0k" && String.eqb secret "s3cret" then Some 7 else None.

Lemma requireJwt_ok_witness :
  requireJwtFromRequest nat verify_demo (bearer_headers "Bearer  t0k ") (Some "s3cret") = Ok 7 /\
  exists a secret,
    (bearer_headers "Bearer  t0k " "authorization" = Some a \/
     bearer_headers "Bearer  t0k " "Authorization" = Some a) /\
    prefixb (list_ascii_of_string "Bearer ") (list_ascii_of_string a) = true /\
    Some "s3cret" = Some secret /\ secret <> "" /\
    verify_demo (string_of_list_ascii (trim_l (skipn 7 (list_ascii_of_string a)))) secret = Some 7.
Proof.
  split; [vm_compute; reflexivity|].
  apply (requireJwt_ok nat verify_demo (bearer_headers "Bearer  t0k ") (Some "s3cret") 7).
  vm_compute. reflexivity.
Defined.

(** The start of POST: a request it rejects with 401 leaves the limiter table as it was; one it lets through was authenticated and accepted by the limiter under getClientIp. *)
Theorem post_gate_order (V : Type) (verify : string -> string -> option V)
  (JWT_SECRET : option string) (now : Z) (m : rate_map) (h : headers) :
  (snd (post_gate V verify JWT_SECRET now m h) = Some 401 ->
     fst (post_gate V verify JWT_SECRET now m h) = m) /\
  (snd (post_gate V verify JWT_SECRET now m h) = None ->
     (exists p, requireJwtFromRequest V verify h JWT_SECRET = Ok p) /\
     checkRateLimit now (getClientIp h) m = (RateOk, fst (post_gate V verify JWT_SECRET now m h))).
Proof.
  unfold post_gate. destruct (requireJwtFromRequest V verify h JWT_SECRET) as [p|msg].
  - destruct (checkRateLimit now (getClientIp h) m) as [[|s] m'] eqn:E; cbn [fst snd].
    + split; [discriminate|]. intros _. split; [exists p; reflexivity|reflexivity].
    + split; discriminate.
  - cbn. split; [reflexivity|discriminate].
Qed.


Lemma map_get_set_same k v m : map_get k (map_set k v m) = Some v.
Proof.
  induction m as [|[k' v'] m IH]; cbn; [now rewrite String.eqb_refl|].
  destruct (String.eqb_spec k k') as [->|]; cbn; [now rewrite String.eqb_refl|].
  destruct (String.eqb_spec k k'); [contradiction|exact IH].
Qed.

Lemma map_get_set_other k k' v m : k' <> k -> map_get k' (map_set k v m) = map_get k' m.
Proof.
  intros Hne. induction m as [|[k0 v0] m IH]; cbn.
  - destruct (String.eqb_spec k' k); [contradiction|reflexivity].
  - destruct (String.eqb_spec k k0) as [->|]; cbn.
    + destruct (String.eqb_spec k' k0); [contradiction|reflexivity].
    + destruct (String.eqb k' k0); [reflexivity|exact IH].
Qed.

(** A call of checkRateLimit for one IP leaves the record of every other IP as it was. *)
Theorem checkRateLimit_isolation (now : Z) (ip ip' : string) (m : rate_map) (Hne : ip' <> ip) :
  map_get ip' (snd (checkRateLimit now ip m)) = map_get ip' m.
Proof.
  unfold checkRateLimit. destruct (map_get ip m) as [r|].
  - destruct (resetAtMs r <? now)%Z; [apply map_get_set_other, Hne|].
    destruct (RATE_LIMIT_MAX <=? count r)%Z; [reflexivity|apply map_get_set_other, Hne].
  - apply map_get_set_other, Hne.
Qed.

Definition ok_table (m : rate_map) : Prop :=
  forall ip r, map_get ip m = Some r -> (1 <= count r <= RATE_LIMIT_MAX)%Z.

(** Every record of the table counts between 1 and RATE_LIMIT_MAX requests, and a call keeps it so; a rejected call leaves the table unchanged and asks to retry after at least one second. *)
Theorem checkRateLimit_invariant (now : Z) (ip : string) (m : rate_map) (Hm : ok_table m) :
  ok_table (snd (checkRateLimit now ip m)) /\
  (forall s, fst (checkRateLimit now ip m) = RateLimited s ->
     snd (checkRateLimit now ip m) = m /\ (1 <= s)%Z).
Proof.
  assert (Hset : forall r, (1 <= count r <= RATE_LIMIT_MAX)%Z -> ok_table (map_set ip r m)).
  { intros r Hr ip' r'. destruct (String.eqb_spec ip' ip) as [->|Hne].
    - rewrite map_get_set_same. intros E; injection E as <-; exact Hr.
    - rewrite map_get_set_other by exact Hne. apply Hm. }
  unfold checkRateLimit. destruct (map_get ip m) as [r|] eqn:Er.
  - destruct (resetAtMs r <? now)%Z.
    + split; [apply Hset; cbn; unfold RATE_LIMIT_MAX; lia|discriminate].
    + destruct (Z.leb_spec RATE_LIMIT_MAX (count r)).
      * split; [exact Hm|]. intros s E; cbn in E; injection E as <-. split; [reflexivity|lia].
      * split; [|discriminate]. apply Hset. cbn. specialize (Hm ip r Er). lia.
  - split; [apply Hset; cbn; unfold RATE_LIMIT_MAX; lia|discriminate].
Qed.

Lemma checkRateLimit_invariant_witness :
  let m := [("1.2.3.4", {| count := 4; resetAtMs := 60000 |});
            ("5.6.7.8", {| count := 1; resetAtMs := 30000 |})] in
  ok_table m /\ fst (checkRateLimit 1000 "1.2.3.4" m) = RateLimited 59 /\
  ok_table (snd (checkRateLimit 1000 "1.2.3.4" m)) /\
  snd (checkRateLimit 1000 "1.2.3.4" m) = m /\ (1 <= 59)%Z.
Proof.
  intros m.
  assert (Hm : ok_table m).
  { intros ip r E. cbn in E.
    repeat match type of E with context [String.eqb ?a ?b] => destruct (String.eqb a b) end;
      try discriminate; injection E as <-; cbn; unfold RATE_LIMIT_MAX; lia. }
  assert (E1 : fst (checkRateLimit 1000 "1.2.3.4" m) = RateLimited 59) by (vm_compute; reflexivity).
  destruct (checkRateLimit_invariant 1000 "1.2.3.4" m Hm) as [Hok H].
  exact (conj Hm (conj E1 (conj Hok (H 59%Z E1)))).
Defined.

Lemma checkRateLimit_isolation_witness :
  "5.6.7.8" <> "1.2.3.4" /\
  map_get "5.6.7.8" (snd (checkRateLimit 10 "1.2.3.4" [("5.6.7.8", {| count := 2; resetAtMs := 99 |})]))
    = Some {| count := 2; resetAtMs := 99 |}.
Proof.
  split; [discriminate|].
  exact (checkRateLimit_isolation 10 "1.2.3.4" "5.6.7.8" _ ltac:(discriminate)).
Defined.

(** Successive calls of [checkRateLimit] on the module's table: each
    call with its IP and result. *)
Fixpoint run_calls (m : rate_map) (calls : list (Z * string)) : list (string * rate_result) :=
  match calls with
  | [] => []
  | (now, ip) :: cs => let '(r, m') := checkRateLimit now ip m in (ip, r) :: run_calls m' cs
  end.

Definition oks_for (ip : string) (rs : list (string * rate_result)) : nat :=
  length (filter (fun '(ip', r) => String.eqb ip' ip && match r with RateOk => true | _ => false end) rs).

Lemma oks_window ip cs : forall m r,
  map_get ip m = Some r -> (count r <= RATE_LIMIT_MAX)%Z ->
  Forall (fun c => (fst c <= resetAtMs r)%Z) cs ->
  (Z.of_nat (oks_for ip (run_calls m cs)) + count r <= RATE_LIMIT_MAX)%Z.
Proof.
  induction cs as [|[t ip'] cs IH]; intros m r Er Hc Hf.
  - cbn. lia.
  - inversion Hf as [|c0 cs0 Ht Hf' [Ec Ecs]]; subst c0 cs0. cbn [fst] in Ht.
    cbn [run_calls]. destruct (String.eqb_spec ip' ip) as [->|Hne].
    + unfold checkRateLimit. rewrite Er.
      destruct (Z.ltb_spec (resetAtMs r) t) as [Hlt|_]; [lia|].
      destruct (Z.leb_spec RATE_LIMIT_MAX (count r)) as [Hle|Hlt].
      * unfold oks_for. cbn [filter]. rewrite String.eqb_refl. cbn [andb].
        fold (oks_for ip (run_calls m cs)). exact (IH m r Er Hc Hf').
      * unfold oks_for. cbn [filter]. rewrite String.eqb_refl. cbn [andb length].
        fold (oks_for ip (run_calls (map_set ip {| count := count r + 1; resetAtMs := resetAtMs r |} m) cs)).
        specialize (IH (map_set ip {| count := count r + 1; resetAtMs := resetAtMs r |} m)
                       {| count := count r + 1; resetAtMs := resetAtMs r |}
                       (map_get_set_same _ _ _)).
        cbn [count resetAtMs] in IH. specialize (IH ltac:(lia) Hf'). lia.
    + destruct (checkRateLimit t ip' m) as [res m'] eqn:Ec.
      unfold oks_for. cbn [filter]. destruct (String.eqb_spec ip' ip); [contradiction|].
      cbn [andb]. fold (oks_for ip (run_calls m' cs)).
      apply (IH m' r); [|exact Hc|exact Hf'].
      pose proof (checkRateLimit_isolation t ip' ip m (not_eq_sym Hne)) as Hi.
      rewrite Ec in Hi. cbn in Hi. rewrite Hi. exact Er.
Qed.

(** A call for an IP with no live record opens a window of RATE_LIMIT_WINDOW_MS; whatever other IPs do, at most RATE_LIMIT_MAX calls for that IP made before the window closes are accepted. *)
Theorem rate_limit_window (m : rate_map) (t0 : Z) (ip : string) (cs : list (Z * string))
  (Hfresh : forall r, map_get ip m = Some r -> (resetAtMs r < t0)%Z)
  (Hwin : Forall (fun c => (fst c <= t0 + RATE_LIMIT_WINDOW_MS)%Z) cs) :
  oks_for ip (run_calls m ((t0, ip) :: cs)) <= Z.to_nat RATE_LIMIT_MAX.
Proof.
  cbn [run_calls].
  assert (E : checkRateLimit t0 ip m =
              (RateOk, map_set ip {| count := 1; resetAtMs := t0 + RATE_LIMIT_WINDOW_MS |} m)).
  { unfold checkRateLimit. destruct (map_get ip m) as [r|] eqn:Er; [|reflexivity].
    specialize (Hfresh r eq_refl). destruct (Z.ltb_spec (resetAtMs r) t0); [reflexivity|lia]. }
  rewrite E. unfold oks_for. cbn [filter]. rewrite String.eqb_refl. cbn [andb length].
  fold (oks_for ip (run_calls (map_set ip {| count := 1; resetAtMs := t0 + RATE_LIMIT_WINDOW_MS |} m) cs)).
  pose proof (oks_window ip cs (map_set ip {| count := 1; resetAtMs := t0 + RATE_LIMIT_WINDOW_MS |} m) {| count := 1; resetAtMs := t0 + RATE_LIMIT_WINDOW_MS |}
                (map_get_set_same _ _ _) ltac:(cbn; unfold RATE_LIMIT_MAX; lia) Hwin) as H.
  cbn [count] in H. unfold RATE_LIMIT_MAX in *. lia.
Qed.

Definition burst : list (Z * string) :=
  [(1000%Z, "1.2.3.4"); (2000%Z, "9.9.9.9"); (3000%Z, "1.2.3.4"); (4000%Z, "1.2.3.4");
   (5000%Z, "1.2.3.4"); (60000%Z, "1.2.3.4")].

Lemma rate_limit_window_witness :
  oks_for "1.2.3.4" (run_calls [] ((0%Z, "1.2.3.4") :: burst)) = 4 /\
  oks_for "1.2.3.4" (run_calls [] ((0%Z, "1.2.3.4") :: burst)) <= Z.to_nat RATE_LIMIT_MAX.
Proof.
  split; [vm_compute; reflexivity|].
  apply rate_limit_window.
  - intros r E; discriminate.
  - unfold burst. repeat constructor; cbn; discriminate.
Defined.


Lemma last_seg_no_slash l : forall cur,
  ~ In "/"%char cur -> ~ In "/"%char (last_seg l cur).
Proof.
  induction l as [|d l IH]; intros cur Hc; cbn [last_seg].
  - rewrite <- in_rev. exact Hc.
  - destruct (Ascii.eqb_spec d "/"%char) as [->|Hne].
    + apply IH. intros [].
    + apply IH. intros [H|H]; [exact (Hne H)|exact (Hc H)].
Qed.

Lemma strip_dot_git_in c l : In c (strip_dot_git l) -> In c l.
Proof.
  unfold strip_dot_git. destruct (_ && _); [apply in_firstn_in|auto].
Qed.

(** The clone directory name derived from a repository URL is never empty and never contains a slash. *)
Theorem repoName_segment (repoUrl : string) :
  repoName repoUrl <> "" /\ ~ In "/"%char (list_ascii_of_string (repoName repoUrl)).
Proof.
  unfold repoName.
  set (l := strip_dot_git (last_seg (list_ascii_of_string repoUrl) [])).
  assert (Hl : ~ In "/"%char l).
  { intros H. apply strip_dot_git_in in H. exact (last_seg_no_slash _ [] (fun H => H) H). }
  destruct (String.eqb_spec (string_of_list_ascii l) "") as [_|Hne].
  - split; [discriminate|]. cbn. intuition discriminate.
  - split; [exact Hne|]. rewrite list_ascii_of_string_of_list_ascii. exact Hl.
Qed.

End ApiFacts.

(** ** Whitespace and keyword hits *)

Module KeywordsExtra.
Import Str Regex Keywords KeywordsFacts.

Lemma adj_tail c l : adj_ok (c :: l) -> adj_ok l.
Proof. intros H x y a b E. apply (H (c :: x) y). rewrite E. reflexivity. Qed.

Lemma collapse_id l : forall b,
  (forall c, In c l -> is_space c = true -> c = " "%char) -> adj_ok l ->
  (b = true -> forall c l', l = c :: l' -> is_space c = false) ->
  collapse_ws l b = l.
Proof.
  induction l as [|c l IH]; intros b Hsp Hadj Hb; [reflexivity|].
  cbn [collapse_ws]. destruct (is_space c) eqn:Ec.
  - destruct b; [rewrite (Hb eq_refl c l eq_refl) in Ec; discriminate|].
    rewrite (Hsp c (or_introl eq_refl) Ec). f_equal.
    apply IH; [intros d Hd; apply Hsp; right; exact Hd|exact (adj_tail _ _ Hadj)|].
    intros _ d l' ->. destruct (Hadj [] l' c d eq_refl) as [H|H]; [congruence|exact H].
  - f_equal. apply IH; [intros d Hd; apply Hsp; right; exact Hd|exact (adj_tail _ _ Hadj)|].
    discriminate.
Qed.

Lemma drop_ws_id l : (forall c l', l = c :: l' -> is_space c = false) -> drop_ws l = l.
Proof. destruct l as [|c l]; [reflexivity|]. intros H. cbn. rewrite (H c l eq_refl). reflexivity. Qed.

Lemma normal_fixed l : ws_normal l -> trim_l (collapse_ws l false) = l.
Proof.
  intros (Hsp & Hadj & Hhd & Hlast).
  rewrite (collapse_id l false Hsp Hadj ltac:(discriminate)).
  unfold trim_l. rewrite (drop_ws_id l Hhd).
  rewrite drop_ws_id; [apply rev_involutive|].
  intros c l' E. apply (Hlast c (rev l')). rewrite <- (rev_involutive l), E. reflexivity.
Qed.

(** normalizeWhitespace is idempotent: normalizing an already normalized string returns it unchanged. *)
Theorem normalizeWhitespace_idempotent (v : string) :
  normalizeWhitespace (normalizeWhitespace v) = normalizeWhitespace v.
Proof.
  unfold normalizeWhitespace at 1.
  rewrite (normal_fixed _ (normalizeWhitespace_normal v)).
  apply string_of_list_ascii_of_string.
Qed.

Lemma split_nl_length l : forall cur,
  length (split_nl l cur) = S (count_occ ascii_dec l (ascii_of_nat 10)).
Proof.
  induction l as [|c l IH]; intros cur; [reflexivity|].
  cbn [split_nl count_occ].
  destruct (Nat.eqb_spec (code c) 10) as [E|E].
  - assert (Ec : c = ascii_of_nat 10).
    { rewrite <- E. unfold code. symmetry. apply ascii_nat_embedding. }
    destruct (ascii_dec c (ascii_of_nat 10)) as [_|Hn]; [|contradiction].
    cbn [length]. rewrite IH. reflexivity.
  - destruct (ascii_dec c (ascii_of_nat 10)) as [Hc|_].
    + exfalso. apply E. rewrite Hc. reflexivity.
    + apply IH.
Qed.

Lemma lines_count text :
  length (split_lines text) = S (count_occ ascii_dec (list_ascii_of_string text) (ascii_of_nat 10)).
Proof. unfold split_lines. rewrite length_map. apply split_nl_length. Qed.

Lemma lineNumberAtIndex_le t idx :
  1 <= lineNumberAtIndex t idx <= S (count_occ ascii_dec t (ascii_of_nat 10)).
Proof.
  unfold lineNumberAtIndex. destruct (idx <=? 0); [lia|].
  pose proof (count_occ_app ascii_dec (firstn idx t) (skipn idx t) (ascii_of_nat 10)) as H.
  rewrite firstn_skipn in H. lia.
Qed.

(** Every keyword hit of scanTextForPromptKeywords carries the scanned file path and a line number between 1 and the number of lines of the text. *)
Theorem keyword_hit_lines (text fp : string) (h : PromptKeywordHit)
  (Hh : In h (scanTextForPromptKeywords text fp)) :
  filePath h = fp /\ 1 <= line h <= length (split_lines text).
Proof.
  rewrite (proj1 (scan_decompose text fp)) in Hh.
  apply in_app_iff in Hh as [H|H].
  - apply emit_all_in in H as [H|[]].
    apply block_candidates_in in H as (bp & x & _ & ->).
    cbn [filePath line cand]. split; [reflexivity|]. rewrite lines_count.
    apply lineNumberAtIndex_le.
  - unfold line_hits in H. apply in_flat_map in H as (i & Hi & H).
    apply in_seq in Hi. unfold opt_list in H.
    destruct (first_match fp (split_lines text) i) as [h'|] eqn:E; [|destruct H].
    destruct H as [<-|[]]. apply pick_some in E as (l & t & _ & ->).
    cbn [filePath line]. split; [reflexivity|lia].
Qed.

Lemma keyword_hit_lines_witness :
  In {| filePath := "p.ts"; line := 2; matchLabel := "generic_prompt_with_system";
        snippet := "a system prompt" |}
     (scanTextForPromptKeywords "a
system prompt" "p.ts") /\
  filePath {| filePath := "p.ts"; line := 2; matchLabel := "generic_prompt_with_system";
              snippet := "a system prompt" |} = "p.ts" /\
  1 <= line {| filePath := "p.ts"; line := 2; matchLabel := "generic_prompt_with_system";
               snippet := "a system prompt" |} <= length (split_lines "a
system prompt").
Proof.
  assert (H : In {| filePath := "p.ts"; line := 2; matchLabel := "generic_prompt_with_system";
                    snippet := "a system prompt" |}
                 (scanTextForPromptKeywords "a
system prompt" "p.ts")) by (vm_compute; auto).
  split; [exact H|]. exact (keyword_hit_lines _ _ _ H).
Defined.

End KeywordsExtra.

(** ** The Python visitor *)

Module PyExtractExtra.
Import Str PyExtract.

Lemma list_string_eqb_eq a : forall b, list_string_eqb a b = true <-> a = b.
Proof.
  induction a as [|x a IH]; intros [|y b]; cbn; try (split; congruence).
  rewrite andb_true_iff, String.eqb_eq, IH. split; [intros [-> ->]; reflexivity|].
  intros E; injection E as -> ->. auto.
Qed.

(** is_llm_call holds exactly when one of the LLM_CALLEE_NAMES paths is a suffix of the callee's segments. *)
Theorem is_llm_call_suffix (callee : list string) :
  is_llm_call callee = true <->
  exists s pre, In s LLM_CALLEE_NAMES /\ callee = pre ++ s.
Proof.
  unfold is_llm_call. rewrite existsb_exists. split.
  - intros (s & Hs & E). apply andb_true_iff in E as [Hl E].
    apply Nat.leb_le in Hl. apply list_string_eqb_eq in E.
    exists s, (firstn (length callee - length s) callee). split; [exact Hs|].
    rewrite <- E at 2. symmetry. apply firstn_skipn.
  - intros (s & pre & Hs & ->). exists s. split; [exact Hs|].
    apply andb_true_iff. split; [apply Nat.leb_le; rewrite length_app; lia|].
    apply list_string_eqb_eq. rewrite length_app.
    replace (length pre + length s - length s) with (length pre) by lia.
    rewrite skipn_app, skipn_all, Nat.sub_diag. reflexivity.
Qed.

Section StmtInd.
Variable P : stmt -> Prop.
Hypothesis HFun : forall name ds body decs, Forall P body -> P (FunctionDef name ds body decs).
Hypothesis HAsync : forall name ds body decs, Forall P body -> P (AsyncFunctionDef name ds body decs).
Hypothesis HExpr : forall e, P (ExprStmt e).
Hypothesis HOther : forall es body, Forall P body -> P (OtherStmt es body).

Fixpoint stmt_ind' (s : stmt) : P s :=
  let fix all (l : list stmt) : Forall P l :=
    match l with [] => Forall_nil _ | x :: l' => Forall_cons x (stmt_ind' x) (all l') end in
  match s with
  | FunctionDef name ds body decs => HFun name ds body decs (all body)
  | AsyncFunctionDef name ds body decs => HAsync name ds body decs (all body)
  | ExprStmt e => HExpr e
  | OtherStmt es body => HOther es body (all body)
  end.
End StmtInd.

Section Artifacts.
Variable fp : string.

(** What every artifact of the file [fp] satisfies. *)
Definition good (a : PythonPrompt) : Prop :=
  filePath a = fp /\ text a <> "" /\ role a <> "" /\
  exists callee, is_llm_call callee = true /\ callSignature a = String.concat "." callee.

Definition all_good (acc : list PythonPrompt) : Prop := forall a, In a acc -> good a.

Lemma all_good_app a b : all_good a -> all_good b -> all_good (a ++ b).
Proof. intros Ha Hb x Hx. apply in_app_iff in Hx as [H|H]; [apply Ha|apply Hb]; exact H. Qed.

Lemma infer_role_nonempty k : infer_role_from_kw k <> "".
Proof.
  unfold infer_role_from_kw.
  destruct existsb; [discriminate|]. destruct existsb; [discriminate|].
  destruct existsb; discriminate.
Qed.

Lemma truthy_some t : truthy_str t = true -> exists s, t = Some s /\ s <> "".
Proof.
  destruct t as [s|]; [|discriminate]. cbn. intros H. exists s. split; [reflexivity|].
  apply negb_true_iff, String.eqb_neq in H. exact H.
Qed.

Lemma call_results_good fn func args kws lineno :
  all_good (call_results fp fn func args kws lineno).
Proof.
  unfold call_results. destruct (is_llm_call (callee_segments func)) eqn:Ec; [|intros a []].
  apply all_good_app.
  - intros a Ha. unfold kw_results in Ha. apply in_flat_map in Ha as ([arg v] & _ & Ha).
    destruct (truthy_str (extract_string v)) eqn:Et; [|destruct Ha].
    destruct Ha as [<-|[]]. apply truthy_some in Et as (s & -> & Hs).
    split; [reflexivity|split; [exact Hs|split; [|exists (callee_segments func); auto]]].
    cbn [role artifact]. destruct arg; [apply infer_role_nonempty|discriminate].
  - assert (Hd : forall ks vs, all_good (dict_results fp fn (callee_segments func) lineno ks vs)).
    { intros ks vs a Ha. unfold dict_results in Ha.
      destruct (_ && _); [|destruct Ha].
      destruct (fold_left _ _ _) as [r t] in Ha.
      destruct (truthy_str t) eqn:Et; [|destruct Ha].
      destruct Ha as [<-|[]]. apply truthy_some in Et as (s & -> & Hs).
      split; [reflexivity|split; [exact Hs|split; [|exists (callee_segments func); auto]]].
      cbn [role artifact]. destruct r as [r|]; [|discriminate].
      destruct (String.eqb_spec r ""); [discriminate|exact n]. }
    intros a Ha. unfold arg_results in Ha. apply in_flat_map in Ha as (x & _ & Ha).
    destruct x; try destruct Ha; try exact (Hd _ _ a Ha).
    apply in_flat_map in Ha as (e & _ & Ha). destruct e; try destruct Ha. exact (Hd _ _ a Ha).
Qed.

Lemma go_good fn (es : list expr) :
  Forall (fun e => forall acc, all_good acc -> all_good (visit_expr fp fn e acc)) es ->
  forall acc, all_good acc ->
  all_good ((fix go (es : list expr) acc :=
               match es with [] => acc | y :: es' => go es' (visit_expr fp fn y acc) end) es acc).
Proof. induction 1 as [|y l Hy Hl IH]; intros acc Hacc; [exact Hacc|]. apply IH, Hy, Hacc. Qed.

Lemma visit_expr_good fn e : forall acc, all_good acc -> all_good (visit_expr fp fn e acc).
Proof.
  induction e as [id|v a IHv|c|vs Hvs|v IHv|f args kws n IHf Hargs Hkws|ks vs Hks Hvs|es Hes
                 |es Hes] using PyExtractFacts.expr_ind'; intros acc Hacc; cbn [visit_expr].
  - exact Hacc.
  - apply IHv, Hacc.
  - exact Hacc.
  - apply go_good; assumption.
  - apply IHv, Hacc.
  - assert (H1 := all_good_app _ _ Hacc (call_results_good fn f args kws n)).
    specialize (IHf _ H1). specialize (go_good fn args Hargs _ IHf) as H2.
    revert H2. generalize ((fix go (es : list expr) acc :=
               match es with [] => acc | y :: es' => go es' (visit_expr fp fn y acc) end) args
               (visit_expr fp fn f (acc ++ call_results fp fn f args kws n))).
    clear IHf H1. induction Hkws as [|[k x] kws Hx Hk IH]; intros l Hl; [exact Hl|].
    cbn [snd] in Hx. exact (IH _ (Hx _ Hl)).
  - apply go_good; [exact Hvs|]. revert acc Hacc.
    induction Hks as [|[x|] ks Hx Hk IH]; intros acc Hacc; [exact Hacc| |].
    + apply IH, Hx, Hacc.
    + apply IH, Hacc.
  - apply go_good; assumption.
  - apply go_good; assumption.
Qed.

Lemma visit_exprs_good fn es : forall acc, all_good acc -> all_good (visit_exprs fp fn es acc).
Proof.
  unfold visit_exprs. induction es as [|e es IH]; intros acc Hacc; [exact Hacc|].
  cbn [fold_left]. apply IH, visit_expr_good, Hacc.
Qed.

Lemma visit_stmt_good s : forall fn acc, all_good acc -> all_good (visit_stmt fp fn s acc).
Proof.
  assert (Hgo : forall body, Forall (fun s => forall fn acc, all_good acc -> all_good (visit_stmt fp fn s acc)) body ->
            forall fn acc, all_good acc ->
            all_good ((fix go (fn : option string) (ss : list stmt) acc :=
              match ss with [] => acc | x :: ss' => go fn ss' (visit_stmt fp fn x acc) end) fn body acc)).
  { induction 1 as [|y l Hy Hl IH]; intros fn acc Hacc; [exact Hacc|]. apply IH, Hy, Hacc. }
  induction s as [name ds body decs Hb|name ds body decs Hb|e|es body Hb] using stmt_ind';
    intros fn acc Hacc; cbn [visit_stmt].
  - apply visit_exprs_good, Hgo, visit_exprs_good, Hacc. exact Hb.
  - apply visit_exprs_good, Hgo, visit_exprs_good, Hacc. exact Hb.
  - apply visit_expr_good, Hacc.
  - apply Hgo; [exact Hb|]. apply visit_exprs_good, Hacc.
Qed.

End Artifacts.

(** Every prompt artifact extract_from_file reports for a file has that file's path, a non-empty text and role, and a call signature naming an LLM callee. *)
Theorem extract_from_file_artifacts (fp : string) (parsed : option (list stmt)) (a : PythonPrompt)
  (Ha : In a (extract_from_file fp parsed)) :
  filePath a = fp /\ text a <> "" /\ role a <> "" /\
  exists callee, is_llm_call callee = true /\ callSignature a = String.concat "." callee.
Proof.
  revert a Ha. unfold extract_from_file. destruct parsed as [body|]; [|intros a []].
  change (all_good fp (fold_left (fun acc s => visit_stmt fp None s acc) body [])).
  generalize (@nil PythonPrompt) (fun a (H : In a []) => match H return good fp a with end).
  induction body as [|s body IH]; intros acc Hacc; [exact Hacc|].
  cbn [fold_left]. exact (IH _ (visit_stmt_good fp s None acc Hacc)).
Qed.

Definition demo_module : list stmt :=
  [FunctionDef "ask" []
     [ExprStmt (Call (Attribute (Attribute (Attribute (Name "client") "chat") "completions") "create")
                     [] [(Some "system", Constant (CStr "Be terse."))] 4)] []].

Lemma extract_from_file_artifacts_witness :
  In {| role := "system"; text := "Be terse."; filePath := "app.py"; line := 4;
        functionName := Some "ask"; callSignature := "client.chat.completions.create" |}
     (extract_from_file "app.py" (Some demo_module)) /\
  filePath {| role := "system"; text := "Be terse."; filePath := "app.py"; line := 4;
              functionName := Some "ask"; callSignature := "client.chat.completions.create" |} = "app.py" /\
  text {| role := "system"; text := "Be terse."; filePath := "app.py"; line := 4;
          functionName := Some "ask"; callSignature := "client.chat.completions.create" |} <> "" /\
  role {| role := "system"; text := "Be terse."; filePath := "app.py"; line := 4;
          functionName := Some "ask"; callSignature := "client.chat.completions.create" |} <> "" /\
  exists callee, is_llm_call callee = true /\
    callSignature {| role := "system"; text := "Be terse."; filePath := "app.py"; line := 4;
                     functionName := Some "ask"; callSignature := "client.chat.completions.create" |}
    = String.concat "." callee.
Proof.
  assert (H : In {| role := "system"; text := "Be terse."; filePath := "app.py"; line := 4;
        functionName := Some "ask"; callSignature := "client.chat.completions.create" |}
     (extract_from_file "app.py" (Some demo_module))) by (vm_compute; left; reflexivity).
  split; [exact H|]. exact (extract_from_file_artifacts _ _ _ H).
Defined.

End PyExtractExtra.

(** ** Directory walks *)

Module WalkExtra.
Import Str Walk Scan ListFacts.

Definition path_of (t : FileTreeNode) : string := let '(FTN _ p _ _) := t in p.

(** The nodes below the root, in pre-order. *)
Fixpoint below (t : FileTreeNode) : list FileTreeNode :=
  match t with
  | FTN _ _ _ None => []
  | FTN _ _ _ (Some kids) =>
      (fix go (l : list FileTreeNode) : list FileTreeNode :=
         match l with [] => [] | k :: l' => k :: below k ++ go l' end) kids
  end.

(** Number of levels below the root. *)
Fixpoint height (t : FileTreeNode) : nat :=
  match t with
  | FTN _ _ _ None => 0
  | FTN _ _ _ (Some kids) =>
      (fix go (l : list FileTreeNode) : nat :=
         match l with [] => 0 | k :: l' => Nat.max (S (height k)) (go l') end) kids
  end.

Lemma below_some nm p ty kids x :
  In x (below (FTN nm p ty (Some kids))) -> exists k, In k kids /\ (x = k \/ In x (below k)).
Proof.
  cbn [below]. induction kids as [|k kids IH]; [intros []|].
  intros [Hx|H]; [exists k; split; [left; reflexivity|left; symmetry; exact Hx]|].
  apply in_app_iff in H as [H|H].
  - exists k. split; [left; reflexivity|right; exact H].
  - destruct (IH H) as (k' & Hk & Hx). exists k'. split; [right; exact Hk|exact Hx].
Qed.

Lemma height_some nm p ty kids b :
  (forall k, In k kids -> S (height k) <= b) -> height (FTN nm p ty (Some kids)) <= b.
Proof.
  cbn [height]. induction kids as [|k kids IH]; intros H; [lia|].
  apply Nat.max_lub; [apply H; left; reflexivity|apply IH; intros k' Hk; apply H; right; exact Hk].
Qed.

Definition no_prisma (t : FileTreeNode) : Prop :=
  includes (lower_string (path_of t)) "prisma" = false.

Section Bounds.
Variable localeCompare : string -> string -> comparison.
Variables maxDepth maxNodes : nat.

Lemma walk_tree_shape fuel : forall dirPath depth n cnt,
  let t := fst (walk_tree localeCompare maxDepth maxNodes fuel dirPath depth n cnt) in
  path_of t = dirPath /\ (forall x, In x (below t) -> no_prisma x) /\
  height t <= S maxDepth - depth.
Proof.
  induction fuel as [|fuel IH]; intros dirPath depth n cnt; cbv zeta.
  { cbn. split; [reflexivity|split; [intros x []|lia]]. }
  cbn [walk_tree].
  destruct ((maxDepth <? depth) || (maxNodes <=? cnt)) eqn:Ec.
  { cbn. split; [reflexivity|split; [intros x []|lia]]. }
  apply orb_false_iff in Ec as [Ed _]. apply Nat.ltb_ge in Ed.
  destruct n as [nm sz ct|nm [|] children|nm]; try (cbn; split; [reflexivity|split; [intros x []|lia]]).
  set (Good := fun k => no_prisma k /\ (forall x, In x (below k) -> no_prisma x) /\
                        S (height k) <= S maxDepth - depth).
  match goal with |- context [let '(_, _) := ?F (sort_entries localeCompare children) [] cnt in _] =>
    assert (HL : forall es kids c, (forall k, In k kids -> Good k) ->
                 forall k, In k (fst (F es kids c)) -> Good k);
    [|destruct (F (sort_entries localeCompare children) [] cnt) as [kids c'] eqn:EF] end.
  { induction es as [|e es IHes]; intros kids c Hk; [exact Hk|].
    cbv beta iota fix.
    destruct (maxNodes <=? c); [exact Hk|].
    destruct (ignored (name_of e)); [apply IHes, Hk|].
    destruct (includes (lower_string (join dirPath (name_of e))) "prisma") eqn:Ep;
      [apply IHes, Hk|].
    destruct e as [nm' sz' ct'|nm' r' ch'|nm'].
    - apply IHes. intros k Hin. apply in_app_iff in Hin as [Hin|[<-|[]]]; [apply Hk, Hin|].
      unfold Good. split; [exact Ep|split; [intros x []|cbn [height]; lia]].
    - destruct (walk_tree localeCompare maxDepth maxNodes fuel (join dirPath (name_of (Dir nm' r' ch')))
                  (S depth) (Dir nm' r' ch') c) as [child c2] eqn:Ew.
      apply IHes. intros k Hin. apply in_app_iff in Hin as [Hin|[<-|[]]]; [apply Hk, Hin|].
      destruct (IH (join dirPath (name_of (Dir nm' r' ch'))) (S depth) (Dir nm' r' ch') c)
        as (H1 & H2 & H3).
      rewrite Ew in H1, H2, H3. cbn [fst] in H1, H2, H3.
      split; [unfold no_prisma; rewrite H1; exact Ep|split; [exact H2|lia]].
    - apply IHes, Hk. }
  specialize (HL (sort_entries localeCompare children) [] cnt ltac:(intros k [])).
  rewrite EF in HL. cbn [fst] in HL |- *.
  split; [reflexivity|split].
  - intros x Hx. apply below_some in Hx as (k & Hk & [->|Hx]); apply HL in Hk as (H1 & H2 & _);
      [exact H1|exact (H2 x Hx)].
  - apply height_some. intros k Hk. apply HL in Hk as (_ & _ & H3). exact H3.
Qed.

End Bounds.

(** No node of the tree buildFileTree returns, other than the root, has a path containing prisma in any letter case, and the tree is at most maxDepth levels deep. *)
Theorem buildFileTree_shape (localeCompare : string -> string -> comparison)
  (root : string) (tree : node) (maxDepth maxNodes : nat) :
  let t := buildFileTree localeCompare root tree maxDepth maxNodes in
  path_of t = root /\
  (forall x, In x (below t) -> includes (lower_string (path_of x)) "prisma" = false) /\
  height t <= maxDepth.
Proof.
  cbv zeta. unfold buildFileTree.
  destruct (walk_tree_shape localeCompare maxDepth maxNodes (S maxDepth) root 1 tree 0)
    as (H1 & H2 & H3).
  split; [exact H1|split; [exact H2|lia]].
Qed.


(** The regular files below [dir], depth first, leaving out every entry
    with an ignored name and everything below it. *)
Fixpoint visible_files (dir : string) (n : node) : list string :=
  match n with
  | Dir _ _ children =>
      (fix go (es : list node) : list string :=
         match es with
         | [] => []
         | e :: es' =>
             if ignored (name_of e) then go es'
             else let p := join dir (name_of e) in
                  match e with
                  | File _ _ _ => [p]
                  | Dir _ _ _ => visible_files p e
                  | Other _ => []
                  end ++ go es'
         end) children
  | _ => []
  end.

Lemma walk_files_prefix maxFiles n : forall dir out out',
  length out <= maxFiles -> walk_files maxFiles dir n out = Some out' ->
  out' = firstn maxFiles (out ++ visible_files dir n).
Proof.
  induction n as [nm size content|nm r children Hch|nm] using WalkFacts.node_ind';
    intros dir out out' Hout E; cbn [walk_files] in E; try discriminate.
  destruct r; [|discriminate]. cbn [negb] in E. cbn [visible_files].
  revert out Hout E. induction Hch as [|e es He Hes IH]; intros out Hout E.
  - injection E as <-. rewrite app_nil_r. symmetry. apply firstn_all2, Hout.
  - destruct (Nat.leb_spec maxFiles (length out)) as [Hle|Hlt].
    { injection E as <-. symmetry. apply firstn_full; lia. }
    destruct (ignored (name_of e)); [exact (IH _ Hout E)|].
    rewrite app_assoc.
    destruct e as [nm' sz ct|nm' r' ch'|nm'].
    + rewrite <- firstn_firstn_app. apply IH; [apply firstn_le_length|].
      rewrite firstn_all2; [exact E|rewrite length_app; cbn; lia].
    + destruct (walk_files maxFiles (join dir (name_of (Dir nm' r' ch'))) (Dir nm' r' ch') out)
        as [o1|] eqn:Ew; [|discriminate].
      apply He in Ew; [|exact Hout]. subst o1.
      rewrite <- firstn_firstn_app. apply IH; [apply firstn_le_length|exact E].
    + rewrite app_nil_r. exact (IH _ Hout E).
Qed.

Lemma visible_files_entries dir n p : In p (visible_files dir n) ->
  exists nm sz c, In (p, File nm sz c) (entries dir n) /\ ignored nm = false.
Proof.
  revert dir. induction n as [nm size content|nm r children Hch|nm] using WalkFacts.node_ind';
    intros dir H; cbn [visible_files] in H; try destruct H.
  cbn [entries]. induction Hch as [|e es He Hes IH]; [destruct H|].
  destruct (ignored (name_of e)) eqn:Ei.
  - destruct (IH H) as (nm' & sz & c & H1 & H2). exists nm', sz, c.
    split; [right; apply in_app_iff; right; exact H1|exact H2].
  - apply in_app_iff in H as [H|H].
    + destruct e as [nm' sz ct|nm' r' ch'|nm'].
      * destruct H as [<-|[]]. exists nm', sz, ct. split; [left; reflexivity|exact Ei].
      * destruct (He _ H) as (nm'' & sz & c & H1 & H2). exists nm'', sz, c.
        split; [right; apply in_app_iff; left; exact H1|exact H2].
      * destruct H.
    + destruct (IH H) as (nm' & sz & c & H1 & H2). exists nm', sz, c.
      split; [right; apply in_app_iff; right; exact H1|exact H2].
Qed.

(** When listAllFiles succeeds, it returns the first maxFiles regular files of the depth-first walk that leaves out ignored names and everything below them; each is a regular file of the tree whose name is not ignored. *)
Theorem listAllFiles_prefix (root : string) (tree : node) (maxFiles : nat) (out : list string)
  (Hok : listAllFiles root tree maxFiles = Some out) :
  out = firstn maxFiles (visible_files root tree) /\
  forall p, In p out -> exists nm sz c, In (p, File nm sz c) (entries root tree) /\ ignored nm = false.
Proof.
  assert (E : out = firstn maxFiles (visible_files root tree)).
  { exact (walk_files_prefix maxFiles tree root [] out (Nat.le_0_l _) Hok). }
  split; [exact E|]. intros p Hp. rewrite E in Hp.
  apply visible_files_entries. rewrite <- (firstn_skipn maxFiles (visible_files root tree)).
  apply in_app_iff. left; exact Hp.
Qed.

Definition demo_repo : node :=
  Dir "repo" true
    [File "a.py" 10 "x"; Dir "node_modules" true [File "b.js" 1 "y"];
     Dir "src" true [File "c.ts" 2 "z"; Other "link"; File "d.ts" 3 "w"];
     File "e.md" 4 "v"].

Lemma listAllFiles_prefix_witness :
  listAllFiles "/repo" demo_repo 3 = Some ["/repo/a.py"; "/repo/src/c.ts"; "/repo/src/d.ts"] /\
  ["/repo/a.py"; "/repo/src/c.ts"; "/repo/src/d.ts"] = firstn 3 (visible_files "/repo" demo_repo) /\
  forall p, In p ["/repo/a.py"; "/repo/src/c.ts"; "/repo/src/d.ts"] ->
    exists nm sz c, In (p, File nm sz c) (entries "/repo" demo_repo) /\ ignored nm = false.
Proof.
  assert (E : listAllFiles "/repo" demo_repo 3 = Some ["/repo/a.py"; "/repo/src/c.ts"; "/repo/src/d.ts"])
    by (vm_compute; reflexivity).
  split; [exact E|]. exact (listAllFiles_prefix "/repo" demo_repo 3 _ E).
Defined.

End WalkExtra.

(** ** Scan reports *)

Module ScanExtra.
Import Str Walk Scan ListFacts.

Lemma secrets_filePath text fp f :
  In f (Secrets.scanTextForSecrets text fp) -> Secrets.filePath f = fp.
Proof.
  unfold Secrets.scanTextForSecrets. rewrite SecretsFacts.in_scan_lines.
  intros (i & l & _ & H). apply SecretsFacts.in_scan_line in H as (name & r & x & _ & _ & ->).
  reflexivity.
Qed.

Lemma keywords_filePath text fp h :
  In h (Keywords.scanTextForPromptKeywords text fp) -> Keywords.filePath h = fp.
Proof.
  rewrite (proj1 (KeywordsFacts.scan_decompose text fp)). intros H.
  apply in_app_iff in H as [H|H].
  - apply KeywordsFacts.emit_all_in in H as [H|[]].
    apply KeywordsFacts.block_candidates_in in H as (bp & x & _ & ->). reflexivity.
  - unfold KeywordsFacts.line_hits in H. apply in_flat_map in H as (i & _ & H).
    unfold KeywordsFacts.opt_list in H.
    destruct (KeywordsFacts.first_match fp _ i) as [h'|] eqn:E; [|destruct H].
    destruct H as [<-|[]]. apply KeywordsFacts.pick_some in E as (l & t & _ & ->). reflexivity.
Qed.

(** [file] passes the filters of the scan loop, and its content [c]
    satisfies [P]. *)
Definition scanned_ok (root : string) (tree : node) (file : string) (P : string -> Prop) : Prop :=
  includes (lower_string file) "prisma" = false /\
  exists nm sz c, resolve root tree file = Some (File nm sz c) /\ sz <= 1024 * 1024 /\ P c.

Lemma scan_files_sources root tree files : forall sf ph,
  (forall f, In f (fst (scan_files root tree files sf ph)) ->
     In f sf \/ scanned_ok root tree (Secrets.filePath f)
       (fun c => In f (firstn 5 (Secrets.scanTextForSecrets c (Secrets.filePath f))))) /\
  (forall h, In h (snd (scan_files root tree files sf ph)) ->
     In h ph \/ scanned_ok root tree (Keywords.filePath h)
       (fun c => In h (firstn 10 (Keywords.scanTextForPromptKeywords c (Keywords.filePath h))))).
Proof.
  induction files as [|file files IH]; intros sf ph.
  - cbn. split; intros x H; left; exact H.
  - cbn [scan_files].
    destruct (includes (lower_string file) "prisma") eqn:Ep; [exact (IH sf ph)|].
    destruct (resolve root tree file) as [[nm sz ct| |]|] eqn:Er; try exact (IH sf ph).
    destruct (Nat.ltb_spec (1024 * 1024) sz) as [_|Hsz]; [exact (IH sf ph)|].
    assert (Hs : forall f, In f (sf ++ firstn 5 (Secrets.scanTextForSecrets ct file)) ->
                   In f sf \/ scanned_ok root tree (Secrets.filePath f)
                     (fun c => In f (firstn 5 (Secrets.scanTextForSecrets c (Secrets.filePath f))))).
    { intros f Hf. apply in_app_iff in Hf as [Hf|Hf]; [left; exact Hf|right].
      rewrite (secrets_filePath ct file f (in_firstn_in _ _ _ Hf)).
      split; [exact Ep|]. exists nm, sz, ct. auto. }
    assert (Hh : forall h, In h (ph ++ firstn 10 (Keywords.scanTextForPromptKeywords ct file)) ->
                   In h ph \/ scanned_ok root tree (Keywords.filePath h)
                     (fun c => In h (firstn 10 (Keywords.scanTextForPromptKeywords c (Keywords.filePath h))))).
    { intros h Hf. apply in_app_iff in Hf as [Hf|Hf]; [left; exact Hf|right].
      rewrite (keywords_filePath ct file h (in_firstn_in _ _ _ Hf)).
      split; [exact Ep|]. exists nm, sz, ct. auto. }
    destruct (200 <? length (sf ++ firstn 5 (Secrets.scanTextForSecrets ct file))).
    + split; [exact Hs|exact Hh].
    + destruct (IH (sf ++ firstn 5 (Secrets.scanTextForSecrets ct file))
                   (ph ++ firstn 10 (Keywords.scanTextForPromptKeywords ct file))) as [H1 H2].
      split.
      * intros f Hf. destruct (H1 f Hf) as [H|H]; [exact (Hs f H)|right; exact H].
      * intros h Hf. destruct (H2 h Hf) as [H|H]; [exact (Hh h H)|right; exact H].
Qed.

(** Every secret finding and keyword hit of a scan run names the file it was found in: a regular file of the scanned tree of at most 1 MiB, whose path contains no prisma in any letter case, and the finding is among the first 5 secret findings (the hit among the first 10 keyword hits) of that file's content. *)
Theorem scan_reports_scanned_files lc pp jp ats useModel targetDir fs0 proc apiKey server :
  let run := scan_run lc pp jp ats useModel targetDir fs0 proc apiKey server in
  (forall f, In f (secrets (snd run)) ->
     scanned_ok targetDir (fst run) (Secrets.filePath f)
       (fun c => In f (firstn 5 (Secrets.scanTextForSecrets c (Secrets.filePath f))))) /\
  (forall h, In h (keywords (snd run)) ->
     scanned_ok targetDir (fst run) (Keywords.filePath h)
       (fun c => In h (firstn 10 (Keywords.scanTextForPromptKeywords c (Keywords.filePath h))))).
Proof.
  cbv zeta.
  rewrite (ScanFacts.fst_scan_run lc pp jp ats useModel targetDir fs0 proc apiKey server).
  unfold scan_run. rewrite <- (ScanFacts.fst_extract pp fs0 proc).
  destruct (extractPythonPrompts pp fs0 proc) as [fs1 ex]. cbn [fst].
  destruct (listAllFiles targetDir fs1 3000) as [files|].
  - destruct (scan_files_sources targetDir fs1 files [] []) as [H1 H2].
    destruct (scan_files targetDir fs1 files [] []) as [sf ph]. cbn [secrets keywords snd].
    split.
    + intros f Hf. destruct (H1 f Hf) as [[]|H]; exact H.
    + intros h Hf. destruct (H2 h Hf) as [[]|H]; exact H.
  - cbn. split; intros x [].
Qed.

End ScanExtra.

(** ** The model request *)

Module NarrativeExtra.
Import Str Walk Narrative ListFacts.

Section FtnInd.
Variable P : FileTreeNode -> Prop.
Hypothesis HFtn : forall nm path ty ch,
  (match ch with Some cs => Forall P cs | None => True end) -> P (FTN nm path ty ch).
Fixpoint ftn_ind' (n : FileTreeNode) : P n :=
  match n with
  | FTN nm path ty ch =>
      HFtn nm path ty ch
        (match ch as o return (match o with Some cs => Forall P cs | None => True end) with
         | Some cs =>
             (fix all (l : list FileTreeNode) : Forall P l :=
                match l with [] => Forall_nil _ | x :: l' => Forall_cons x (ftn_ind' x) (all l') end) cs
         | None => I
         end)
  end.
End FtnInd.

(** The paths of the nodes at depth [maxDepth] or less, in pre-order. *)
Fixpoint preorder (maxDepth : nat) (n : FileTreeNode) (depth : nat) : list string :=
  let '(FTN _ path type children) := n in
  path :: (if maxDepth <=? depth then [] else
           match type, children with
           | TDir, Some cs => flat_map (fun c => preorder maxDepth c (S depth)) cs
           | _, _ => []
           end).

Lemma flatten_walk_prefix maxDepth maxItems n : forall depth out,
  length out <= maxItems ->
  flatten_walk maxDepth maxItems n depth out =
    firstn maxItems (out ++ preorder maxDepth n depth).
Proof.
  induction n as [nm path ty ch Hch] using ftn_ind'; intros depth out Hout.
  cbn [flatten_walk preorder].
  destruct (Nat.leb_spec maxItems (length out)) as [Hfull|Hroom].
  { symmetry. apply firstn_full; lia. }
  assert (Hout' : length (out ++ [path]) <= maxItems) by (rewrite length_app; cbn; lia).
  destruct (maxDepth <=? depth).
  { symmetry. apply firstn_all2. exact Hout'. }
  assert (Ea : forall X, out ++ path :: X = (out ++ [path]) ++ X)
    by (intros X; rewrite <- app_assoc; reflexivity).
  destruct ty; [|symmetry; apply firstn_all2, Hout'].
  destruct ch as [cs|]; [|symmetry; apply firstn_all2, Hout'].
  rewrite (Ea (flat_map _ cs)).
  generalize (out ++ [path]) Hout'. clear out Hout Hroom Hout' Ea.
  induction Hch as [|c cs Hc Hcs IH]; intros o Ho.
  - rewrite app_nil_r. symmetry. apply firstn_all2, Ho.
  - destruct (Nat.leb_spec maxItems (length o)) as [Hfull|Hroom].
    + symmetry. apply firstn_full; lia.
    + rewrite (Hc (S depth) o Ho). cbn [flat_map].
      rewrite IH by apply firstn_le_length.
      rewrite firstn_firstn_app, app_assoc. reflexivity.
Qed.

(** flattenFileTree returns the first maxItems paths of the pre-order walk of the tree cut below depth maxDepth, so never more than maxItems paths. *)
Theorem flattenFileTree_prefix (root : FileTreeNode) (maxDepth maxItems : nat) :
  flattenFileTree (Some root) maxDepth maxItems = firstn maxItems (preorder maxDepth root 0)
  /\ length (flattenFileTree (Some root) maxDepth maxItems) <= maxItems.
Proof.
  assert (E : flattenFileTree (Some root) maxDepth maxItems = firstn maxItems (preorder maxDepth root 0)).
  { exact (flatten_walk_prefix maxDepth maxItems root 0 [] (Nat.le_0_l _)). }
  split; [exact E|]. rewrite E. apply firstn_le_length.
Qed.

Lemma length_take n s : length (list_ascii_of_string (take n s)) <= n.
Proof. unfold take. rewrite list_ascii_of_string_of_list_ascii. apply firstn_le_length. Qed.

(** analyzePromptContext sends at most one request, and only with a non-empty API key; the request carries at most 200 keyword hits with snippets of at most 400 characters, at most 150 Python prompts with texts of at most 500 characters, and at most 400 file paths. *)
Theorem analyzePromptContext_request_bounds jp ats apiKey server hits python fileTree :
  let reqs := fst (analyzePromptContext jp ats apiKey server hits python fileTree) in
  length reqs <= 1 /\
  forall req, In req reqs ->
    apiKey = Some (req_apiKey req) /\ req_apiKey req <> "" /\
    length (req_hits req) <= 200 /\
    (forall h, In h (req_hits req) -> length (list_ascii_of_string (snd h)) <= 400) /\
    length (req_python req) <= 150 /\
    (forall p, In p (req_python req) ->
       let '(_, t, _, _, _, _) := p in length (list_ascii_of_string t) <= 500) /\
    length (req_paths req) <= 400.
Proof.
  cbv zeta. unfold analyzePromptContext.
  destruct apiKey as [key|]; [|split; [cbn; lia|intros req []]].
  destruct (String.eqb_spec key "") as [_|Hk]; [split; [cbn; lia|intros req []]|].
  match goal with |- context [server ?r] => set (req := r) end.
  assert (Hreq : Some key = Some (req_apiKey req) /\ req_apiKey req <> "" /\
    length (req_hits req) <= 200 /\
    (forall h, In h (req_hits req) -> length (list_ascii_of_string (snd h)) <= 400) /\
    length (req_python req) <= 150 /\
    (forall p, In p (req_python req) ->
       let '(_, t, _, _, _, _) := p in length (list_ascii_of_string t) <= 500) /\
    length (req_paths req) <= 400).
  { cbn [req req_apiKey req_hits req_python req_paths].
    split; [reflexivity|split; [exact Hk|split; [|split; [|split; [|split]]]]].
    - rewrite length_map. apply firstn_le_length.
    - intros h Hh. apply in_map_iff in Hh as (h' & <- & _). apply length_take.
    - rewrite length_map. apply firstn_le_length.
    - intros p Hp. apply in_map_iff in Hp as (p' & <- & _). apply length_take.
    - destruct fileTree as [t|]; [|cbn; lia]. unfold flattenFileTree.
      rewrite (flatten_walk_prefix 3 400 t 0 [] (Nat.le_0_l _)). apply firstn_le_length. }
  assert (E : fst (match server req with
                   | Some data => match parse_reply jp ats data with
                                  | Returned r => ([req], Returned r)
                                  | Threw => ([req], Returned None) end
                   | None => ([req], Returned None) end) = [req]).
  { destruct (server req); [destruct (parse_reply jp ats _)|]; reflexivity. }
  rewrite E. split; [cbn; lia|]. intros x [<-|[]]. exact Hreq.
Qed.

(** A non-null analysis is a value JSON.parse produced, with a truthy summary and an array of files. *)
Theorem analyzePromptContext_result_shape jp ats apiKey server hits python fileTree
  (p : json)
  (Hp : snd (analyzePromptContext jp ats apiKey server hits python fileTree) = Returned (Some p)) :
  truthy (get (Some p) "summary") = true /\ is_array (get (Some p) "files") = true /\
  exists t, jp t = Some p.
Proof.
  unfold analyzePromptContext in Hp.
  destruct apiKey as [key|]; [|discriminate]. destruct (String.eqb key ""); [discriminate|].
  destruct (server _) as [data|]; [|discriminate].
  destruct (parse_reply jp ats data) as [r|] eqn:E; [|discriminate].
  cbn in Hp. injection Hp as ->. unfold parse_reply in E.
  destruct (negb (truthy _)); [discriminate|].
  match type of E with (match ?j with Some _ => _ | None => _ end) = _ =>
    destruct j as [t|] end; [|discriminate].
  destruct (jp t) as [parsed|] eqn:Ej; [|discriminate].
  destruct (truthy (get (Some parsed) "summary")) eqn:E1; [|discriminate].
  destruct (is_array (get (Some parsed) "files")) eqn:E2; [|discriminate].
  cbn in E. injection E as <-. split; [exact E1|split; [exact E2|exists t; exact Ej]].
Qed.

Definition demo_parse (t : string) : option json :=
  if String.eqb t "{ok}" then Some (JObj [("summary", JStr "s"); ("files", JArr [])]) else None.

Definition demo_server (r : request) : option json :=
  Some (JObj [("choices", JArr [JObj [("message", JObj [("content", JStr "Here: {ok} done")])]])]).

Lemma analyzePromptContext_result_shape_witness :
  snd (analyzePromptContext demo_parse (fun _ => "") (Some "k") demo_server [] [] None)
    = Returned (Some (JObj [("summary", JStr "s"); ("files", JArr [])])) /\
  truthy (get (Some (JObj [("summary", JStr "s"); ("files", JArr [])])) "summary") = true /\
  is_array (get (Some (JObj [("summary", JStr "s"); ("files", JArr [])])) "files") = true /\
  exists t, demo_parse t = Some (JObj [("summary", JStr "s"); ("files", JArr [])]).
Proof.
  split; [vm_compute; reflexivity|].
  apply (analyzePromptContext_result_shape demo_parse (fun _ => "") (Some "k") demo_server [] [] None).
  vm_compute. reflexivity.
Defined.

End NarrativeExtra.
